(** * Big Mart Sales dashboard: the filter-and-aggregate pipeline of [app.py]

    The dashboard script loads one table, narrows it by three sidebar
    selections and feeds the narrowed table to a fixed set of metrics and
    charts.  This development embeds that pipeline:

    - [Pandas]: the dataframe operations the script calls (boolean-mask
      selection, [replace], [fillna], [value_counts], [groupby], [sort_values],
      the column reductions), as functions on lists of rows;
    - the object store: the script binds names to dataframe objects,
      copies them and assigns columns in place, so frames live in a store and
      the script is a program in a state-and-failure monad over it;
    - the sections of [app.py], each as one program of that monad, named after
      the variable the section computes.  The calls that only draw (the
      scatter plot, the histograms, the box plot, the static texts) compute
      nothing from the view and are left out.

    Conventions.  The cells of a [float64] column are rationals [Q] and a
    missing cell ([NaN]) is [None]; a reduction that pandas answers with
    [NaN] answers [None].  The sums and means of the sales and price columns
    are taken on exact values.  The percentages of the missing-values
    analysis are also given as the interpreter computes them, in double
    precision ([Binary64], [Float64]).  The cells of an integer column are
    [Z], and arithmetic on such a column wraps to 64 bits ([int64]).
    Strings are compared byte by byte, with no normalisation. *)

From Stdlib Require Import ZArith QArith Qround Qpower Ascii String List Permutation Sorted
  Lia Lqa.
From stdpp Require Import base decidable option list strings.

Local Open Scope string_scope.
Local Open Scope list_scope.
Local Open Scope Z_scope.

(** ** Rows of the canonical schema

    The twelve columns [load_data] produces by renaming.  [Item_Weight] and
    [Outlet_Size] are the two columns the script inspects for missing cells.
    [Outlet_Establishment_Year] is a column of integers (calendar years).
    [Store_Age] is the derived column the store-age section adds to its own
    copy of the view; it is [None] in every frame that has no such column. *)

Record Row := mkRow {
  Item_Identifier : string;
  Item_Weight : option Q;
  Item_Fat_Content : string;
  Item_Visibility : Q;
  Item_Type : string;
  Item_MRP : Q;
  Outlet_Identifier : string;
  Outlet_Establishment_Year : Z;
  Outlet_Size : option string;
  Outlet_Location_Type : string;
  Outlet_Type : string;
  Item_Outlet_Sales : Q;
  Store_Age : option Z
}.

Abbreviation DataFrame := (list Row).

(** ** The dataframe operations used by the script *)

Module Pandas.

(** [df[col]]: the column as a series. *)
Definition getitem {A} (col : Row → A) (d : DataFrame) : list A := map col d.

(** [series == v]: the element-wise comparison with a scalar. *)
Definition eq_scalar {A} `{EqDecision A} (s : list A) (v : A) : list bool :=
  map (λ x, bool_decide (x = v)) s.

(** [df[mask]]: the rows at which the mask holds, in the frame's order.  A
    mask of another length than the frame is refused. *)
Fixpoint getitem_bool (d : DataFrame) (mask : list bool) : option DataFrame :=
  match d, mask with
  | [], [] => Some []
  | r :: d', b :: mask' =>
      rest ← getitem_bool d' mask';
      Some (if b : bool then r :: rest else rest)
  | _, _ => None
  end.

(** [series.isnull()] and [series.fillna(v)]. *)
Definition isnull {A} (s : list (option A)) : list bool :=
  map (λ x, match x with None => true | Some _ => false end) s.

Definition fillna {A} (v : A) (s : list (option A)) : list (option A) :=
  map (λ x, match x with None => Some v | Some _ => x end) s.

(** [mask.sum()]: the number of [True] cells. *)
Definition sum_bool (mask : list bool) : Z :=
  fold_left (λ acc (b : bool), if b then acc + 1 else acc) mask 0.

(** [series.replace({k1: v1, ...})]: a cell equal to a key of the mapping
    becomes that key's value, any other cell is kept. *)
Fixpoint replace_value (mapping : list (string * string)) (x : string) : string :=
  match mapping with
  | [] => x
  | (k, v) :: mapping' => if decide (x = k) then v else replace_value mapping' x
  end.

Definition replace (mapping : list (string * string)) (s : list string) : list string :=
  map (replace_value mapping) s.

(** [series.sum()] of a float column: the cells added up from zero, on exact
    values (pandas adds the doubles, rounding as it goes). *)
Definition sum (s : list Q) : Q := fold_left Qplus s 0%Q.

(** [series.mean()] (on exact values) and [series.max()] of a float column,
    [series.max()] and [series.min()] of an integer column: [None] stands
    for the [NaN] pandas answers on a series without cells. *)
Definition mean (s : list Q) : option Q :=
  match s with
  | [] => None
  | _ => Some (sum s / inject_Z (Z.of_nat (length s)))%Q
  end.

Definition max (s : list Q) : option Q :=
  match s with
  | [] => None
  | x :: s' => Some (fold_left (λ m y, if Qle_bool m y then y else m) s' x)
  end.

Definition max_int (s : list Z) : option Z :=
  match s with
  | [] => None
  | x :: s' => Some (fold_left Z.max s' x)
  end.

Definition min_int (s : list Z) : option Z :=
  match s with
  | [] => None
  | x :: s' => Some (fold_left Z.min s' x)
  end.

(** [series.nunique()]: the number of distinct cells. *)
Definition nunique {A} `{EqDecision A} (s : list A) : nat :=
  length (remove_dups s).

(** [sort_values]: the rows reordered so that [leb] holds between
    neighbours.  Rows that [leb] ranks alike keep their relative order; no
    statement below depends on how ties are broken. *)
Fixpoint insert_sorted {A} (leb : A → A → bool) (x : A) (l : list A) : list A :=
  match l with
  | [] => [x]
  | y :: l' => if leb x y then x :: l else y :: insert_sorted leb x l'
  end.

Definition sort_values {A} (leb : A → A → bool) (l : list A) : list A :=
  foldr (insert_sorted leb) [] l.

(** Grouping: the cells are visited once, in order; each joins the group
    of its key, a key not seen before opens a new group at the end. *)
Fixpoint add_to_group {K V} `{EqDecision K} (k : K) (v : V)
    (gs : list (K * list V)) : list (K * list V) :=
  match gs with
  | [] => [(k, [v])]
  | (k', g) :: gs' =>
      if decide (k = k') then (k', g ++ [v]) :: gs'
      else (k', g) :: add_to_group k v gs'
  end.

Definition groups {K V} `{EqDecision K} (l : list (K * V)) : list (K * list V) :=
  fold_left (λ gs kv, add_to_group kv.1 kv.2 gs) l [].

(** The cells that have a key, each with its key: a cell whose key is
    missing belongs to no group. *)
Definition keyed {K V} (key : V → option K) (l : list V) : list (K * V) :=
  omap (λ v, k ← key v; Some (k, v)) l.

(** [df.groupby(key)]: one group per distinct key, reported in ascending
    key order ([leb] is the order of the key type). *)
Definition groupby {K} `{EqDecision K} (leb : K → K → bool)
    (key : Row → option K) (d : DataFrame) : list (K * DataFrame) :=
  sort_values (λ a b, leb a.1 b.1) (groups (keyed key d)).

(** [df.groupby(key)[val].sum().reset_index()] and the same with [mean]:
    a table of (key, aggregate) rows. *)
Definition groupby_sum {K} `{EqDecision K} (leb : K → K → bool)
    (key : Row → option K) (val : Row → Q) (d : DataFrame) : list (K * Q) :=
  map (λ kg, (kg.1, sum (getitem val kg.2))) (groupby leb key d).

Definition groupby_mean {K} `{EqDecision K} (leb : K → K → bool)
    (key : Row → option K) (val : Row → Q) (d : DataFrame)
    : list (K * option Q) :=
  map (λ kg, (kg.1, mean (getitem val kg.2))) (groupby leb key d).

(** [series.value_counts()]: the distinct non-null cells with their
    number of occurrences, most frequent first. *)
Definition value_counts {A} `{EqDecision A} (s : list (option A)) : list (A * nat) :=
  sort_values (λ a b, (b.2 <=? a.2)%nat)
    (map (λ kg, (kg.1, length kg.2)) (groups (keyed id s))).

(** The cells of an [int64] column are 64-bit two's-complement integers:
    arithmetic on such a column wraps around. *)
Definition int64 (z : Z) : Z := (z + 2 ^ 63) `mod` 2 ^ 64 - 2 ^ 63.

(** To the nearest integer, a half-way case to the even neighbour. *)
Definition round_half_even (x : Q) : Z :=
  let f := Qfloor x in
  match (x - inject_Z f ?= 1 # 2)%Q with
  | Lt => f
  | Gt => f + 1
  | Eq => if Z.even f then f else f + 1
  end.

(** Rounding to two decimals on exact values: the nearest hundredth, a
    half-way case to the even neighbour. *)
Definition round2 (x : Q) : Q :=
  (inject_Z (round_half_even (x * 100)) / 100)%Q.

End Pandas.

Import Pandas.

(** ** Double-precision arithmetic

    Python's [float] and numpy's [float64] are IEEE 754 binary64 numbers: an
    operation returns the exact result rounded to the nearest number with
    53 significant bits, a tie going to the neighbour whose last bit is 0.
    The numbers are kept as the rationals they are.  Overflow to infinity is
    left out: nothing computed with these operations here reaches 2^1024. *)

Module Binary64.

(** The exponent of [x > 0]: the [b] with [2^b <= x < 2^(b+1)]. *)
Definition binade (x : Q) : Z :=
  let l := Z.log2 (Qnum x) - Z.log2 (Zpos (Qden x)) in
  if Qle_bool (2 ^ l) x then l else l - 1.

(** The binary64 number nearest to [x > 0]: a multiple of [2^(b-52)], where
    [b] is the exponent of [x]; of [2^-1074] in the subnormal range. *)
Definition nearest (x : Q) : Q :=
  let e := Z.max (binade x - 52) (-1074) in
  (inject_Z (round_half_even (x / 2 ^ e)) * 2 ^ e)%Q.

Definition round (x : Q) : Q :=
  match (x ?= 0)%Q with
  | Eq => 0%Q
  | Gt => nearest x
  | Lt => (- nearest (- x))%Q
  end.

(** An integer converted to [float64]. *)
Definition of_int (z : Z) : Q := round (inject_Z z).

(** [x / y], for [y] other than 0, and [x * y]. *)
Definition div (x y : Q) : Q := round (x / y).

Definition mul (x y : Q) : Q := round (x * y).

(** [numpy.rint]: to the nearest integer, a tie to the even one. *)
Definition rint (x : Q) : Q := inject_Z (round_half_even x).

(** [round(x, 2)] on a numpy [float64] is numpy's [around]:
    [rint(x * 100) / 100], each step a [float64] operation.  (Python's own
    [round] on a [float] rounds the exact decimal value of the double
    instead; the two differ on a few doubles, such as the one nearest to
    2.675, which numpy rounds to 2.68.) *)
Definition round2 (x : Q) : Q := div (rint (mul x 100)) 100.

End Binary64.

(** ** The object store

    A name of the script is bound to a dataframe object.  [copy] and
    boolean-mask selection make a new object, a column assignment changes the
    object it is applied to, and [data = filtered_df] binds a second name to
    the same object.  The store is the list of the objects made so far; a
    reference is a position in it. *)

Abbreviation loc := nat.
Abbreviation heap := (list DataFrame).

Definition M (A : Type) : Type := heap → option (A * heap).

#[global] Instance M_ret : MRet M := λ A a h, Some (a, h).
#[global] Instance M_bind : MBind M := λ A B k m h,
  match m h with
  | Some (a, h') => k a h'
  | None => None
  end.

Definition read (l : loc) : M DataFrame := λ h, d ← h !! l; Some (d, h).

Definition new (d : DataFrame) : M loc := λ h, Some (length h, h ++ [d]).

Definition assign (l : loc) (d : DataFrame) : M unit := λ h,
  if decide (l < length h)%nat then Some ((), <[l:=d]> h) else None.

(** A library call that raises ends the run. *)
Definition lift {A} (o : option A) : M A := λ h, a ← o; Some (a, h).

(** [name.copy()]. *)
Definition copy (l : loc) : M loc := d ← read l; new d.

(** [name[name[col] == v]]. *)
Definition select_eq (col : Row → string) (v : string) (l : loc) : M loc :=
  d ← read l;
  d' ← lift (getitem_bool d (eq_scalar (getitem col d) v));
  new d'.

(** [name[col] = series]: the column of the object is overwritten, cell by
    cell; a series of another length is refused. *)
Fixpoint set_column {A} (set : A → Row → Row) (d : DataFrame) (s : list A)
    : option DataFrame :=
  match d, s with
  | [], [] => Some []
  | r :: d', x :: s' => rest ← set_column set d' s'; Some (set x r :: rest)
  | _, _ => None
  end.

Definition setitem {A} (l : loc) (set : A → Row → Row) (series : DataFrame → list A)
    : M unit :=
  d ← read l;
  d' ← lift (set_column set d (series d));
  assign l d'.

Definition set_Outlet_Size (v : option string) (r : Row) : Row :=
  mkRow (Item_Identifier r) (Item_Weight r) (Item_Fat_Content r)
    (Item_Visibility r) (Item_Type r) (Item_MRP r) (Outlet_Identifier r)
    (Outlet_Establishment_Year r) v (Outlet_Location_Type r) (Outlet_Type r)
    (Item_Outlet_Sales r) (Store_Age r).

Definition set_Item_Fat_Content (v : string) (r : Row) : Row :=
  mkRow (Item_Identifier r) (Item_Weight r) v
    (Item_Visibility r) (Item_Type r) (Item_MRP r) (Outlet_Identifier r)
    (Outlet_Establishment_Year r) (Outlet_Size r) (Outlet_Location_Type r)
    (Outlet_Type r) (Item_Outlet_Sales r) (Store_Age r).

Definition set_Store_Age (v : Z) (r : Row) : Row :=
  mkRow (Item_Identifier r) (Item_Weight r) (Item_Fat_Content r)
    (Item_Visibility r) (Item_Type r) (Item_MRP r) (Outlet_Identifier r)
    (Outlet_Establishment_Year r) (Outlet_Size r) (Outlet_Location_Type r)
    (Outlet_Type r) (Item_Outlet_Sales r) (Some v).

(** ** The script *)

(** What a metric or a chart slot shows: a computed value, or the script's
    message that there is no data. *)
Inductive display (A : Type) : Type :=
  | Shown (a : A)
  | No_data.
Arguments Shown {A} a.
Arguments No_data {A}.

(** *** Applying the sidebar filters (lines 74-85) *)

(** One [if selected != 'All': filtered_df = filtered_df[filtered_df[col] == selected]]. *)
Definition filter_step (col : Row → string) (selected : string) (filtered_df : loc)
    : M loc :=
  if decide (selected ≠ "All") then select_eq col selected filtered_df
  else mret filtered_df.

Definition filtered_df (df : loc)
    (selected_product_type selected_city_tier selected_store_category : string)
    : M loc :=
  filtered_df ← copy df;
  filtered_df ← filter_step Item_Type selected_product_type filtered_df;
  filtered_df ← filter_step Outlet_Location_Type selected_city_tier filtered_df;
  filtered_df ← filter_step Outlet_Type selected_store_category filtered_df;
  mret filtered_df.

(** The same statements taken in an arbitrary order: the three sidebar
    fields, and a run of filter statements given as a list. *)
Inductive filter_field := Product_Type | City_Tier | Store_Category.

Definition field_column (f : filter_field) : Row → string :=
  match f with
  | Product_Type => Item_Type
  | City_Tier => Outlet_Location_Type
  | Store_Category => Outlet_Type
  end.

Fixpoint filter_steps (selection : list (filter_field * string)) (filtered_df : loc)
    : M loc :=
  match selection with
  | [] => mret filtered_df
  | (f, selected) :: selection' =>
      filtered_df ← filter_step (field_column f) selected filtered_df;
      filter_steps selection' filtered_df
  end.

Definition apply_selection (df : loc) (selection : list (filter_field * string))
    : M loc :=
  filtered_df ← copy df;
  filter_steps selection filtered_df.

(** *** Key metrics overview (lines 92-127) *)

Record key_metrics := {
  total_observations : nat;
  product_types_count : nat;
  highest_mrp : display (option Q);
  establishment_years : display (option Z * option Z);
  avg_store_sales : display (option Q);
  total_store_sales : display Q;
  avg_mrp : display (option Q)
}.

Definition key_metrics_overview (data : loc) : M key_metrics :=
  d ← read data;
  mret {|
    total_observations := length d;
    product_types_count := nunique (getitem Item_Type d);
    highest_mrp :=
      if decide (0 < length d)%nat then Shown (max (getitem Item_MRP d))
      else No_data;
    establishment_years :=
      if decide (0 < length d)%nat then
        Shown (min_int (getitem Outlet_Establishment_Year d),
               max_int (getitem Outlet_Establishment_Year d))
      else No_data;
    avg_store_sales :=
      if decide (0 < length d)%nat then Shown (mean (getitem Item_Outlet_Sales d))
      else No_data;
    total_store_sales :=
      if decide (0 < length d)%nat then Shown (sum (getitem Item_Outlet_Sales d))
      else No_data;
    avg_mrp :=
      if decide (0 < length d)%nat then Shown (mean (getitem Item_MRP d))
      else No_data
  |}.

(** *** Missing values analysis (lines 132-140) *)

Record missing_row := {
  Column : string;
  Missing_Values : Z;
  Percentage : Q
}.

(** [(missing_count / len(data)) * 100 if len(data) > 0 else 0], on exact
    values. *)
Definition missing_percentage (missing_count : Z) (len_data : nat) : Q :=
  if decide (0 < len_data)%nat
  then (inject_Z missing_count / inject_Z (Z.of_nat len_data) * 100)%Q
  else 0%Q.

(** The body of the loop, for the column [col] whose null mask is [nulls]. *)
Definition missing_entry (col : string) (nulls : list bool) (len_data : nat)
    : missing_row :=
  let missing_count := sum_bool nulls in
  {| Column := col;
     Missing_Values := missing_count;
     Percentage := round2 (missing_percentage missing_count len_data) |}.

Definition missing_data (data : loc) : M (list missing_row) :=
  d ← read data;
  mret [ missing_entry "Item_Weight" (isnull (getitem Item_Weight d)) (length d);
         missing_entry "Outlet_Size" (isnull (getitem Outlet_Size d)) (length d) ].

(** The same section in the arithmetic the interpreter performs.
    [missing_count], the sum of a boolean series, is a numpy integer, so
    [missing_count / len(data)] is the [float64] quotient of the two counts
    converted to [float64], [(...) * 100] is a [float64] product and
    [round(..., 2)], called on a numpy [float64], is numpy's; in the other
    branch the percentage is the integer 0, which [round] leaves as it is.  The hundredths reported can differ from those of the exact
    percentage in the last digit: 23 missing cells in 160 rows are 14.375
    per cent, reported as 14.37. *)
Module Float64.

Definition missing_percentage (missing_count : Z) (len_data : nat) : Q :=
  if decide (0 < len_data)%nat
  then Binary64.mul
         (Binary64.div (Binary64.of_int missing_count)
            (Binary64.of_int (Z.of_nat len_data)))
         100
  else 0%Q.

Definition missing_entry (col : string) (nulls : list bool) (len_data : nat)
    : missing_row :=
  let missing_count := sum_bool nulls in
  {| Column := col;
     Missing_Values := missing_count;
     Percentage := Binary64.round2 (missing_percentage missing_count len_data) |}.

Definition missing_data (data : loc) : M (list missing_row) :=
  d ← read data;
  mret [ missing_entry "Item_Weight" (isnull (getitem Item_Weight d)) (length d);
         missing_entry "Outlet_Size" (isnull (getitem Outlet_Size d)) (length d) ].

End Float64.

(** *** Visualizations (lines 148-311) *)

(** A chart is drawn from a table only [if len(table) > 0]. *)
Definition chart {A} (table : list A) : display (list A) :=
  if decide (0 < length table)%nat then Shown table else No_data.

(** Store size distribution (lines 169-171). *)
Definition df_size (data : loc) : M loc :=
  df_size ← copy data;
  setitem df_size set_Outlet_Size (λ d, fillna "Unknown" (getitem Outlet_Size d));;
  mret df_size.

Definition size_counts (data : loc) : M (list (string * nat)) :=
  df_size ← df_size data;
  d ← read df_size;
  mret (value_counts (getitem Outlet_Size d)).

(** City tier distribution (line 184). *)
Definition tier_counts (data : loc) : M (list (string * nat)) :=
  d ← read data;
  mret (value_counts (getitem (λ r, Some (Outlet_Location_Type r)) d)).

(** Average sales by store category (line 200). *)
Definition avg_sales_by_type (data : loc) : M (list (string * option Q)) :=
  d ← read data;
  mret (groupby_mean String.leb (λ r, Some (Outlet_Type r)) Item_Outlet_Sales d).

(** Total sales by fat content (lines 241-248). *)
Definition fat_content_mapping : list (string * string) :=
  [ ("LF", "Low Fat"); ("low fat", "Low Fat"); ("reg", "Regular") ].

Definition fat_content_df (data : loc) : M loc :=
  fat_content_df ← copy data;
  setitem fat_content_df set_Item_Fat_Content
    (λ d, replace fat_content_mapping (getitem Item_Fat_Content d));;
  mret fat_content_df.

Definition fat_sales (data : loc) : M (list (string * Q)) :=
  fat_content_df ← fat_content_df data;
  d ← read fat_content_df;
  mret (groupby_sum String.leb (λ r, Some (Item_Fat_Content r)) Item_Outlet_Sales d).

(** Total sales by city tier (line 265). *)
Definition tier_sales (data : loc) : M (list (string * Q)) :=
  d ← read data;
  mret (groupby_sum String.leb (λ r, Some (Outlet_Location_Type r)) Item_Outlet_Sales d).

(** Total sales by product type (lines 282-284): the table handed to the
    bar chart. *)
Definition type_sales_total (data : loc) : M (display (list (string * Q))) :=
  d ← read data;
  let type_sales_total :=
    groupby_sum String.leb (λ r, Some (Item_Type r)) Item_Outlet_Sales d in
  mret (if decide (0 < length type_sales_total)%nat
        then Shown (sort_values (λ a b, Qle_bool b.2 a.2) type_sales_total)
        else No_data).

(** Sales by product type, as shares (line 302). *)
Definition type_sales (data : loc) : M (list (string * Q)) :=
  d ← read data;
  mret (groupby_sum String.leb (λ r, Some (Item_Type r)) Item_Outlet_Sales d).

Record charts := {
  chart_size : display (list (string * nat));
  chart_tier : display (list (string * nat));
  chart_avg_sales : display (list (string * option Q));
  chart_fat : display (list (string * Q));
  chart_tier_sales : display (list (string * Q));
  chart_type_total : display (list (string * Q));
  chart_type_share : display (list (string * Q))
}.

Definition visualizations (data : loc) : M (display charts) :=
  d ← read data;
  if decide (length d = 0%nat) then mret No_data
  else
    size_counts ← size_counts data;
    tier_counts ← tier_counts data;
    avg_sales_by_type ← avg_sales_by_type data;
    fat_sales ← fat_sales data;
    tier_sales ← tier_sales data;
    type_sales_total ← type_sales_total data;
    type_sales ← type_sales data;
    mret (Shown {|
      chart_size := chart size_counts;
      chart_tier := chart tier_counts;
      chart_avg_sales := chart avg_sales_by_type;
      chart_fat := chart fat_sales;
      chart_tier_sales := chart tier_sales;
      chart_type_total := type_sales_total;
      chart_type_share := chart type_sales |}).

(** *** Advanced analytics (lines 316-362) *)

Definition current_year : Z := 2025.

(** [store_age_df['Store_Age'] = current_year -
    store_age_df['Outlet_Establishment_Year']]: the year column is an
    [int64] column, and so is the difference. *)
Definition store_age_df (data : loc) : M loc :=
  store_age_df ← copy data;
  setitem store_age_df set_Store_Age
    (λ d, map (λ year, int64 (current_year - year))
            (getitem Outlet_Establishment_Year d));;
  mret store_age_df.

(** Sales trends by store age (lines 322-326). *)
Definition age_sales (data : loc) : M (list (Z * option Q)) :=
  store_age_df ← store_age_df data;
  d ← read store_age_df;
  let age_sales := groupby_mean Z.leb Store_Age Item_Outlet_Sales d in
  mret (sort_values (λ a b, a.1 <=? b.1) age_sales).

(** Product performance matrix (lines 355-362): per product type the means
    of price, visibility and sales and the number of sales cells, rounded to
    two decimals. *)
Record bubble_row := {
  Avg_MRP : option Q;
  Avg_Visibility : option Q;
  Avg_Sales : option Q;
  Product_Count : nat
}.

Definition bubble_data (data : loc) : M (list (string * bubble_row)) :=
  d ← read data;
  mret (map (λ kg, (kg.1,
               {| Avg_MRP := round2 <$> mean (getitem Item_MRP kg.2);
                  Avg_Visibility := round2 <$> mean (getitem Item_Visibility kg.2);
                  Avg_Sales := round2 <$> mean (getitem Item_Outlet_Sales kg.2);
                  Product_Count := length (getitem Item_Outlet_Sales kg.2) |}))
          (groupby String.leb (λ r, Some (Item_Type r)) d)).

Record analytics := {
  line_age : list (Z * option Q);
  bubble : list (string * bubble_row)
}.

Definition advanced_analytics (data : loc) : M (display analytics) :=
  d ← read data;
  if decide (0 < length d)%nat then
    age_sales ← age_sales data;
    bubble_data ← bubble_data data;
    mret (Shown {| line_age := age_sales; bubble := bubble_data |})
  else mret No_data.

(** *** One run of the script on the loaded table *)

Record dashboard := {
  view : loc;
  metrics : key_metrics;
  missing : list missing_row;
  visuals : display charts;
  advanced : display analytics
}.

Definition run (df : loc)
    (selected_product_type selected_city_tier selected_store_category : string)
    : M dashboard :=
  data ← filtered_df df selected_product_type selected_city_tier
           selected_store_category;
  metrics ← key_metrics_overview data;
  missing ← missing_data data;
  visuals ← visualizations data;
  advanced ← advanced_analytics data;
  mret {| view := data; metrics := metrics; missing := missing;
          visuals := visuals; advanced := advanced |}.

(** ** Vocabulary of the statements *)

(** A row passes a filter statement when the selection is ['All'] or the
    row's cell is the selected string. *)
Definition passes (col : Row → string) (selected : string) (r : Row) : Prop :=
  selected ≠ "All" → col r = selected.

#[global] Instance passes_dec col selected r : Decision (passes col selected r).
Proof. unfold passes. apply _. Defined.

(** A row is kept by a run of filter statements when it passes each. *)
Definition passes_all (selection : list (filter_field * string)) (r : Row) : Prop :=
  Forall (λ fv, passes (field_column fv.1) fv.2 r) selection.

#[global] Instance passes_all_dec selection r : Decision (passes_all selection r).
Proof. unfold passes_all. apply _. Defined.

(** The rows the three sidebar selections keep. *)
Definition in_selection (p t s : string) (r : Row) : Prop :=
  passes Item_Type p r ∧ passes Outlet_Location_Type t r ∧ passes Outlet_Type s r.

#[global] Instance in_selection_dec p t s r : Decision (in_selection p t s r).
Proof. unfold in_selection. apply _. Defined.

(** The group recorded under a key: the first entry with that key. *)
Fixpoint group_of {K V} `{EqDecision K} (k : K) (gs : list (K * V)) : option V :=
  match gs with
  | [] => None
  | (k', g) :: gs' => if decide (k = k') then Some g else group_of k gs'
  end.

(** The rows of a frame whose cell in a nullable column is missing. *)
Definition null_rows {A} (col : Row → option A) (d : DataFrame) : DataFrame :=
  filter (λ r, col r = None) d.

(** The frame a program returns: the contents, after the run, of the
    object it hands back. *)
Definition result (m : M loc) (h : heap) : option DataFrame :=
  lh ← m h; lh.2 !! lh.1.

(** A small table for the concrete instances: the three rows of the
    specification's scenario, with the remaining cells filled in. *)
Definition sample : DataFrame :=
  [ mkRow "FDA15" (Some 9.3%Q) "LF" 0.016%Q "Dairy" 249.8%Q "OUT049" 1999
      (Some "Medium") "Tier 1" "Supermarket Type1" 100%Q None;
    mkRow "FDX07" None "low fat" 0%Q "Dairy" 182.1%Q "OUT010" 1998
      None "Tier 2" "Grocery Store" 50%Q None;
    mkRow "DRC01" (Some 5.92%Q) "Regular" 0.019%Q "Snacks" 48.27%Q "OUT018" 2009
      None "Tier 1" "Supermarket Type2" 200%Q None ].

(** ** The rest of the script: loading and the sidebar *)

(** *** Loading (lines 14-37)

    [load_data] reads the table and renames its columns.  Of the frame
    [read_csv] returns only the column names take part in the renaming;
    they are distinct, [read_csv] having numbered each name the file
    repeats. *)
Definition column_mapping : list (string * string) :=
  [ ("ProductID", "Item_Identifier");
    ("Weight", "Item_Weight");
    ("FatContent", "Item_Fat_Content");
    ("ProductVisibility", "Item_Visibility");
    ("ProductType", "Item_Type");
    ("MRP", "Item_MRP");
    ("OutletID", "Outlet_Identifier");
    ("EstablishmentYear", "Outlet_Establishment_Year");
    ("OutletSize", "Outlet_Size");
    ("LocationType", "Outlet_Location_Type");
    ("OutletType", "Outlet_Type");
    ("OutletSales", "Item_Outlet_Sales") ].

(** [df.rename(columns=mapping)] on the column names: a column named by a
    key of the mapping takes that key's value as its name, any other column
    keeps its name. *)
Definition rename (mapping : list (string * string)) (columns : list string)
    : list string :=
  map (replace_value mapping) columns.

(** [columns] are the column names of the frame [read_csv] returned. *)
Definition load_data (columns : list string) : list string :=
  rename column_mapping columns.

(** *** Sidebar (lines 50-71) *)

(** [series.unique()]: the distinct cells in order of first appearance. *)
Definition unique {A} `{EqDecision A} (s : list A) : list A :=
  fold_left (λ seen x, if decide (x ∈ seen) then seen else seen ++ [x]) s [].

(** [['All'] + sorted(df[col].unique().tolist())], on a column that holds
    a string in every row, as the three category columns of [Row] do.  (On
    a column with a missing cell [sorted] would compare a float with a
    string and raise; the row type leaves such tables out.) *)
Definition options (col : Row → string) (d : DataFrame) : list string :=
  "All" :: sort_values String.leb (unique (getitem col d)).

(** [st.sidebar.selectbox(label, options=options, index=0)]: the option at
    the position the user picked, the first one when nothing was picked.  A
    position outside the options is refused. *)
Definition selectbox (options : list string) (picked : option nat) : M string :=
  lift (options !! default 0%nat picked).

Definition sidebar (df : loc) (picked_type picked_tier picked_store : option nat)
    : M (string * string * string) :=
  d ← read df;
  let product_types := options Item_Type d in
  selected_product_type ← selectbox product_types picked_type;
  let city_tiers := options Outlet_Location_Type d in
  selected_city_tier ← selectbox city_tiers picked_tier;
  let store_categories := options Outlet_Type d in
  selected_store_category ← selectbox store_categories picked_store;
  mret (selected_product_type, selected_city_tier, selected_store_category).

(** The script from the sidebar on: the selections are read, then the rest
    runs on them. *)
Definition script (df : loc) (picked_type picked_tier picked_store : option nat)
    : M dashboard :=
  selected ← sidebar df picked_type picked_tier picked_store;
  run df selected.1.1 selected.1.2 selected.2.

(** A row whose product type is spelled like the sentinel of the filters,
    and the sample table with that row added. *)
Definition row_named_all : Row :=
  mkRow "NCD19" None "Low Fat" 0%Q "All" 10%Q "OUT013" 1987
    None "Tier 3" "Grocery Store" 30%Q None.

Definition sample_named_all : DataFrame := sample ++ [row_named_all].



(** * Properties *)

(** ** Running programs on the store *)

Section store.
Context {A B : Type}.

Lemma bind_run (m : M A) (k : A → M B) h a h' :
  m h = Some (a, h') → (m ≫= k) h = k a h'.
Proof. intros Hm. unfold mbind, M_bind. by rewrite Hm. Qed.

Lemma ret_run (a : A) (h : heap) : (mret a : M A) h = Some (a, h).
Proof. done. Qed.

Lemma lift_run (o : option A) a h : o = Some a → lift o h = Some (a, h).
Proof. by intros ->. Qed.
End store.

Lemma lookup_new (h : heap) d : (h ++ [d]) !! length h = Some d.
Proof. by rewrite lookup_app_r, Nat.sub_diag. Qed.

Lemma lookup_old (h : heap) d l x : h !! l = Some x → (h ++ [d]) !! l = Some x.
Proof. intros Hl. by rewrite lookup_app_l by (by eapply lookup_lt_Some). Qed.

Lemma read_run (h : heap) l d : h !! l = Some d → read l h = Some (d, h).
Proof. intros Hl. unfold read. by rewrite Hl. Qed.

Lemma new_run (h : heap) d : new d h = Some (length h, h ++ [d]).
Proof. done. Qed.

Lemma copy_run (h : heap) l d : h !! l = Some d → copy l h = Some (length h, h ++ [d]).
Proof.
  intros Hl. unfold copy. by rewrite (bind_run _ _ _ _ _ (read_run _ _ _ Hl)).
Qed.

(** ** Boolean-mask selection *)

Lemma getitem_bool_eq_scalar (col : Row → string) v (d : DataFrame) :
  getitem_bool d (eq_scalar (getitem col d) v) = Some (filter (λ r, col r = v) d).
Proof.
  unfold eq_scalar, getitem. rewrite map_map.
  induction d as [|r d IH]; [done|].
  cbn [map getitem_bool]. rewrite IH, filter_cons.
  by destruct (decide (col r = v)) as [Heq|Hne];
    [rewrite (bool_decide_eq_true_2 _ Heq)|rewrite (bool_decide_eq_false_2 _ Hne)].
Qed.

Lemma select_eq_run (h : heap) col v l d :
  h !! l = Some d →
  select_eq col v l h = Some (length h, h ++ [filter (λ r, col r = v) d]).
Proof.
  intros Hl. unfold select_eq.
  rewrite (bind_run _ _ _ _ _ (read_run _ _ _ Hl)).
  by rewrite (bind_run _ _ _ _ _ (lift_run _ _ _ (getitem_bool_eq_scalar col v d))).
Qed.

Lemma filter_all {X} (P : X → Prop) `{!∀ x, Decision (P x)} (l : list X) :
  (∀ x, x ∈ l → P x) → filter P l = l.
Proof.
  induction l as [|x l IH]; intros HP; [done|].
  rewrite filter_cons_True by (apply HP; left).
  f_equal. apply IH. intros y Hy. apply HP. by right.
Qed.

Lemma filter_none {X} (P : X → Prop) `{!∀ x, Decision (P x)} (l : list X) :
  (∀ x, x ∈ l → ¬ P x) → filter P l = [].
Proof.
  induction l as [|x l IH]; intros HP; [done|].
  rewrite filter_cons_False by (apply HP; left).
  apply IH. intros y Hy. apply HP. by right.
Qed.

Lemma filter_step_run (h : heap) col selected l d :
  h !! l = Some d →
  ∃ l' h', filter_step col selected l h = Some (l', h') ∧
    h `prefix_of` h' ∧ (l ≤ l')%nat ∧
    h' !! l' = Some (filter (passes col selected) d).
Proof.
  intros Hl. unfold filter_step. destruct (decide (selected ≠ "All")) as [Hsel|Hsel].
  - exists (length h), (h ++ [filter (λ r, col r = selected) d]).
    split; [by apply select_eq_run|]. split; [by apply prefix_app_r|].
    split; [apply Nat.lt_le_incl; by eapply lookup_lt_Some|].
    rewrite lookup_new. f_equal. apply list_filter_iff. unfold passes. naive_solver.
  - exists l, h. split; [done|]. split; [done|]. split; [done|].
    rewrite Hl. f_equal. symmetry. apply filter_all. unfold passes. naive_solver.
Qed.

Lemma filter_steps_run selection : ∀ (h : heap) l d,
  h !! l = Some d →
  ∃ l' h', filter_steps selection l h = Some (l', h') ∧
    h `prefix_of` h' ∧ (l ≤ l')%nat ∧
    h' !! l' = Some (filter (passes_all selection) d).
Proof.
  induction selection as [|[f v] selection IH]; intros h l d Hl.
  - exists l, h. repeat split; try done.
    rewrite Hl. f_equal. symmetry. apply filter_all. intros; constructor.
  - destruct (filter_step_run h (field_column f) v l d Hl)
      as (l1 & h1 & Hrun1 & Hpre1 & Hle1 & Hl1).
    destruct (IH h1 l1 _ Hl1) as (l2 & h2 & Hrun2 & Hpre2 & Hle2 & Hl2).
    exists l2, h2. cbn [filter_steps].
    rewrite (bind_run _ _ _ _ _ Hrun1). split; [done|].
    split; [by etrans|]. split; [lia|].
    rewrite Hl2. f_equal. rewrite list_filter_filter.
    apply list_filter_iff. intros r. unfold passes_all.
    rewrite Forall_cons. cbn [fst snd]. tauto.
Qed.

Lemma apply_selection_run selection (h : heap) df rows :
  h !! df = Some rows →
  ∃ data h', apply_selection df selection h = Some (data, h') ∧
    h `prefix_of` h' ∧ (length h ≤ data)%nat ∧
    h' !! data = Some (filter (passes_all selection) rows).
Proof.
  intros Hdf. unfold apply_selection.
  rewrite (bind_run _ _ _ _ _ (copy_run _ _ _ Hdf)).
  destruct (filter_steps_run selection (h ++ [rows]) (length h) rows (lookup_new h rows))
    as (l' & h' & Hrun & Hpre & Hle & Hl').
  exists l', h'. split; [done|]. split; [|done].
  etrans; [|exact Hpre]. by apply prefix_app_r.
Qed.

(** The script's three statements are the run
    [Product_Type; City_Tier; Store_Category]. *)
Lemma filtered_df_apply_selection df p t s h :
  filtered_df df p t s h =
  apply_selection df [(Product_Type, p); (City_Tier, t); (Store_Category, s)] h.
Proof.
  unfold filtered_df, apply_selection. unfold mbind at 1 5, M_bind.
  destruct (copy df h) as [[l0 h0]|]; [|done]. cbn [filter_steps field_column].
  unfold mbind, M_bind.
  destruct (filter_step Item_Type p l0 h0) as [[l1 h1]|]; [|done].
  destruct (filter_step Outlet_Location_Type t l1 h1) as [[l2 h2]|]; [|done].
  by destruct (filter_step Outlet_Type s l2 h2) as [[l3 h3]|].
Qed.

Lemma filtered_df_run (h : heap) df rows p t s :
  h !! df = Some rows →
  ∃ data h', filtered_df df p t s h = Some (data, h') ∧
    h `prefix_of` h' ∧ (length h ≤ data)%nat ∧
    h' !! data = Some (filter (in_selection p t s) rows).
Proof.
  intros Hdf.
  destruct (apply_selection_run [(Product_Type, p); (City_Tier, t); (Store_Category, s)]
              h df rows Hdf) as (data & h' & Hrun & Hpre & Hfresh & Hdata).
  exists data, h'. rewrite filtered_df_apply_selection. split; [done|].
  split; [done|]. split; [done|]. rewrite Hdata. f_equal.
  apply list_filter_iff. intros r. unfold passes_all, in_selection.
  rewrite !Forall_cons, Forall_nil. cbn [fst snd field_column]. tauto.
Qed.

(** ** Sorting and grouping *)

Section sorting.
Context {A : Type} (leb : A → A → bool).

Lemma insert_sorted_perm x l : insert_sorted leb x l ≡ₚ x :: l.
Proof.
  induction l as [|y l IH]; [done|]. cbn. destruct (leb x y); [done|].
  rewrite IH. apply perm_swap.
Qed.

Lemma sort_values_perm l : sort_values leb l ≡ₚ l.
Proof.
  induction l as [|x l IH]; [done|]. cbn. by rewrite insert_sorted_perm, IH.
Qed.

Lemma sort_values_elem_of x l : x ∈ sort_values leb l ↔ x ∈ l.
Proof. by rewrite sort_values_perm. Qed.

Lemma sort_values_length l : length (sort_values leb l) = length l.
Proof. by rewrite sort_values_perm. Qed.

Context (R : A → A → Prop).
Hypothesis leb_R : ∀ x y, leb x y = true → R x y.
Hypothesis leb_total : ∀ x y, leb x y = false → R y x.
Hypothesis R_trans : ∀ x y z, R x y → R y z → R x z.

Lemma insert_sorted_sorted x l :
  StronglySorted R l → StronglySorted R (insert_sorted leb x l).
Proof.
  induction 1 as [|y l Hl IH Hy]; cbn; [repeat constructor|].
  destruct (leb x y) eqn:Hxy.
  - constructor; [by constructor|]. constructor; [by apply leb_R|].
    eapply Forall_impl; [exact Hy|]. intros z Hz. eapply R_trans; [|exact Hz]. by apply leb_R.
  - constructor; [done|]. rewrite insert_sorted_perm. constructor; [by apply leb_total|done].
Qed.

Lemma sort_values_sorted l : StronglySorted R (sort_values leb l).
Proof.
  induction l as [|x l IH]; cbn; [constructor|]. by apply insert_sorted_sorted.
Qed.
End sorting.

Section grouping.
Context {K V : Type} `{EqDecision K}.
Implicit Types (gs : list (K * list V)) (l : list (K * V)).

Lemma group_of_add_eq k v gs :
  group_of k (add_to_group k v gs) = Some (default [] (group_of k gs) ++ [v]).
Proof.
  induction gs as [|[k' g] gs IH]; cbn.
  - by case_decide.
  - destruct (decide (k = k')) as [->|Hne]; cbn; by case_decide.
Qed.

Lemma group_of_add_ne k k' v gs :
  k' ≠ k → group_of k' (add_to_group k v gs) = group_of k' gs.
Proof.
  intros Hne. induction gs as [|[k'' g] gs IH]; cbn.
  - by case_decide.
  - destruct (decide (k = k'')) as [->|Hne']; cbn; case_decide; by subst.
Qed.

Lemma add_to_group_keys k v gs :
  (add_to_group k v gs).*1 = if decide (k ∈ gs.*1) then gs.*1 else gs.*1 ++ [k].
Proof.
  induction gs as [|[k' g] gs IH]; cbn.
  - rewrite decide_False; [done|]. apply not_elem_of_nil.
  - destruct (decide (k = k')) as [->|Hne]; cbn.
    + rewrite decide_True; [done|]. left.
    + rewrite IH. destruct (decide (k ∈ gs.*1)) as [Hin|Hnin].
      * rewrite decide_True; [done|]. by right.
      * rewrite decide_False; [done|]. rewrite elem_of_cons. by intros [?|?].
Qed.

Lemma add_to_group_NoDup k v gs : NoDup gs.*1 → NoDup (add_to_group k v gs).*1.
Proof.
  intros Hnd. rewrite add_to_group_keys. destruct (decide (k ∈ gs.*1)); [done|].
  apply NoDup_app. split; [done|]. split; [|apply NoDup_singleton].
  intros x Hx Hx'. apply list_elem_of_singleton in Hx' as ->. done.
Qed.

Lemma group_of_elem_of {X} (k : K) (g : X) (gs : list (K * X)) :
  NoDup gs.*1 → (k, g) ∈ gs ↔ group_of k gs = Some g.
Proof.
  induction gs as [|[k' g'] gs IH]; cbn; intros Hnd.
  - split; [by intros ?%elem_of_nil|done].
  - apply NoDup_cons in Hnd as [Hk' Hnd]. rewrite elem_of_cons.
    destruct (decide (k = k')) as [->|Hne].
    + split; [|intros [= ->]; by left]. intros [[= ->]|Hin]; [done|].
      exfalso. apply Hk'. apply list_elem_of_fmap. by exists (k', g).
    + rewrite <- (IH Hnd). split; [by intros [[= -> ->]|?]|by right].
Qed.

Lemma groups_snoc l kv : groups (l ++ [kv]) = add_to_group kv.1 kv.2 (groups l).
Proof. unfold groups. by rewrite fold_left_app. Qed.

Lemma groups_NoDup l : NoDup (groups l).*1.
Proof.
  induction l as [|kv l IH] using rev_ind; [constructor|].
  rewrite groups_snoc. by apply add_to_group_NoDup.
Qed.

Lemma group_of_groups k l :
  group_of k (groups l) =
  match (filter (λ kv, kv.1 = k) l).*2 with [] => None | g => Some g end.
Proof.
  induction l as [|[k' v] l IH] using rev_ind; [done|].
  rewrite groups_snoc, filter_app, fmap_app, filter_cons, filter_nil. cbn [fst snd].
  destruct (decide (k' = k)) as [->|Hne].
  - rewrite group_of_add_eq, IH. cbn.
    by destruct ((filter (λ kv, kv.1 = k) l).*2).
  - rewrite group_of_add_ne by done. cbn. by rewrite app_nil_r.
Qed.

Lemma elem_of_groups k g l :
  (k, g) ∈ groups l ↔ g = (filter (λ kv, kv.1 = k) l).*2 ∧ g ≠ [].
Proof.
  rewrite (group_of_elem_of k g _ (groups_NoDup l)), group_of_groups.
  destruct ((filter (λ kv, kv.1 = k) l).*2) as [|v g0] eqn:E.
  - split; [done|by intros [-> ?]].
  - split; [by intros [= <-]|by intros [-> _]].
Qed.

Lemma add_to_group_total k v gs :
  sum_list (length <$> (add_to_group k v gs).*2) = S (sum_list (length <$> gs.*2)).
Proof.
  induction gs as [|[k' g] gs IH]; cbn; [done|].
  destruct (decide (k = k')); cbn.
  - rewrite length_app. cbn. lia.
  - rewrite IH. lia.
Qed.

Lemma groups_total l : sum_list (length <$> (groups l).*2) = length l.
Proof.
  induction l as [|kv l IH] using rev_ind; [done|].
  rewrite groups_snoc, add_to_group_total, IH, length_app. cbn. lia.
Qed.
End grouping.

Lemma keyed_cons {K V} (key : V → option K) (v : V) (l : list V) :
  keyed key (v :: l) =
  match key v with Some k => (k, v) :: keyed key l | None => keyed key l end.
Proof. unfold keyed. cbn. by destruct (key v). Qed.

Lemma keyed_group {K V} `{EqDecision K} (key : V → option K) (k : K) (l : list V) :
  (filter (λ kv, kv.1 = k) (keyed key l)).*2 = filter (λ v, key v = Some k) l.
Proof.
  induction l as [|v l IH]; [done|].
  rewrite keyed_cons, (filter_cons (λ v, key v = Some k)).
  destruct (key v) as [k'|] eqn:Hk.
  - rewrite filter_cons. cbn [fst]. destruct (decide (k' = k)) as [->|Hne].
    + rewrite decide_True by done. cbn. by rewrite IH.
    + by rewrite decide_False by congruence.
  - by rewrite decide_False.
Qed.

(** ** The filter *)

(** C1, as the code has it.  Whatever the table and the three selections,
    the filter statements run without error and hand back a new object (a
    reference no earlier object has, every earlier object left as it was)
    whose rows are exactly the rows of the table that equal, field by field,
    each selection other than ['All']: the same rows, as often, in the
    table's order.  A selection that is the string ['All'] constrains
    nothing.  When no row matches, the view is empty. *)
Theorem filtered_df_exact (h : heap) df rows p t s :
  h !! df = Some rows →
  ∃ data h' v,
    filtered_df df p t s h = Some (data, h') ∧
    h' !! data = Some v ∧
    v = filter (in_selection p t s) rows ∧
    (∀ r, r ∈ v ↔ r ∈ rows ∧ (p ≠ "All" → Item_Type r = p) ∧
                   (t ≠ "All" → Outlet_Location_Type r = t) ∧
                   (s ≠ "All" → Outlet_Type r = s)) ∧
    v `sublist_of` rows ∧
    (length h ≤ data)%nat ∧ h `prefix_of` h' ∧
    ((∀ r, r ∈ rows → ¬ in_selection p t s r) → v = []).
Proof.
  intros Hdf.
  destruct (filtered_df_run h df rows p t s Hdf) as (data & h' & Hrun & Hpre & Hfresh & Hdata).
  exists data, h', (filter (in_selection p t s) rows).
  split; [done|]. split; [done|]. split; [done|].
  split; [intros r; rewrite list_elem_of_filter; unfold in_selection, passes; tauto|].
  split; [apply sublist_filter|]. split; [done|]. split; [done|].
  apply filter_none.
Qed.

Lemma filtered_df_exact_witness :
  [sample] !! 0%nat = Some sample ∧
  ∃ data h' v,
    filtered_df 0%nat "Dairy" "Tier 1" "All" [sample] = Some (data, h') ∧
    h' !! data = Some v ∧
    v = filter (in_selection "Dairy" "Tier 1" "All") sample ∧
    (∀ r, r ∈ v ↔ r ∈ sample ∧ ("Dairy" ≠ "All" → Item_Type r = "Dairy") ∧
                   ("Tier 1" ≠ "All" → Outlet_Location_Type r = "Tier 1") ∧
                   ("All" ≠ "All" → Outlet_Type r = "All")) ∧
    v `sublist_of` sample ∧
    (length [sample] ≤ data)%nat ∧ [sample] `prefix_of` h' ∧
    ((∀ r, r ∈ sample → ¬ in_selection "Dairy" "Tier 1" "All" r) → v = []).
Proof.
  split; [reflexivity|].
  apply (filtered_df_exact [sample] 0%nat sample "Dairy" "Tier 1" "All").
  reflexivity.
Defined.

(** C1, read with every value of the selection boxes as an equality
    predicate, fails for the value ["All"]: in a table with a product type
    spelled ["All"] the sidebar offers that type (the second option), and
    with it selected the filter hands back all four rows, where one row has
    that product type. *)
Lemma filtered_df_sentinel_value :
  options Item_Type sample_named_all !! 1%nat = Some "All" ∧
  result (filtered_df 0%nat "All" "All" "All") [sample_named_all]
  = Some sample_named_all ∧
  length sample_named_all = 4%nat ∧
  filter (λ r, Item_Type r = "All") sample_named_all = [row_named_all] ∧
  result (filtered_df 0%nat "All" "All" "All") [sample_named_all]
  ≠ Some (filter (λ r, Item_Type r = "All") sample_named_all).
Proof.
  split; [by vm_compute|]. split; [by vm_compute|]. split; [reflexivity|].
  split; [by vm_compute|]. by vm_compute.
Qed.

(** C8.  With all three selections left at ['All'] the view is, by value,
    the whole table: the same rows in the same order, hence as many; it is
    a copy, not the table object itself. *)
Theorem filtered_df_all (h : heap) df rows :
  h !! df = Some rows →
  ∃ data h',
    filtered_df df "All" "All" "All" h = Some (data, h') ∧
    h' !! data = Some rows ∧
    result (filtered_df df "All" "All" "All") h = Some rows ∧
    data ≠ df ∧ h' !! df = Some rows.
Proof.
  intros Hdf.
  destruct (filtered_df_run h df rows "All" "All" "All" Hdf)
    as (data & h' & Hrun & Hpre & Hfresh & Hdata).
  assert (Hid : filter (in_selection "All" "All" "All") rows = rows).
  { apply filter_all. intros r _. unfold in_selection, passes. naive_solver. }
  rewrite Hid in Hdata. exists data, h'.
  split; [done|]. split; [done|].
  split; [unfold result; by rewrite Hrun|].
  split; [apply lookup_lt_Some in Hdf; lia|].
  by eapply prefix_lookup_Some.
Qed.

Lemma filtered_df_all_witness :
  [sample] !! 0%nat = Some sample ∧
  ∃ data h',
    filtered_df 0%nat "All" "All" "All" [sample] = Some (data, h') ∧
    h' !! data = Some sample ∧
    result (filtered_df 0%nat "All" "All" "All") [sample] = Some sample ∧
    data ≠ 0%nat ∧ h' !! 0%nat = Some sample.
Proof.
  split; [reflexivity|].
  apply (filtered_df_all [sample] 0%nat sample). reflexivity.
Defined.

(** C2.  Two runs of filter statements that are permutations of one another
    hand back views with the same contents; in particular every order of
    the script's three statements gives the view the script computes. *)
Theorem filter_order_independent (h : heap) df rows
    (S1 S2 : list (filter_field * string)) :
  h !! df = Some rows →
  S1 ≡ₚ S2 →
  ∃ v, result (apply_selection df S1) h = Some v ∧
       result (apply_selection df S2) h = Some v ∧
       (∀ p t s, S1 ≡ₚ [(Product_Type, p); (City_Tier, t); (Store_Category, s)] →
                 result (filtered_df df p t s) h = Some v).
Proof.
  intros Hdf Hperm.
  destruct (apply_selection_run S1 h df rows Hdf) as (d1 & h1 & Hrun1 & _ & _ & Hd1).
  destruct (apply_selection_run S2 h df rows Hdf) as (d2 & h2 & Hrun2 & _ & _ & Hd2).
  assert (Hsame : ∀ T1 T2 : list (filter_field * string), T1 ≡ₚ T2 →
            filter (passes_all T1) rows = filter (passes_all T2) rows).
  { intros T1 T2 HT. apply list_filter_iff. intros r. unfold passes_all.
    split; apply Permutation_Forall; [done|by symmetry]. }
  exists (filter (passes_all S1) rows).
  split; [unfold result; by rewrite Hrun1|].
  split; [unfold result; rewrite Hrun2; cbn; rewrite Hd2; f_equal; symmetry; by apply Hsame|].
  intros p t s Hscript. unfold result.
  destruct (apply_selection_run [(Product_Type, p); (City_Tier, t); (Store_Category, s)]
              h df rows Hdf) as (d3 & h3 & Hrun3 & _ & _ & Hd3).
  rewrite filtered_df_apply_selection, Hrun3. cbn. rewrite Hd3. f_equal. symmetry.
  by apply Hsame.
Qed.

Lemma filter_order_independent_witness :
  [sample] !! 0%nat = Some sample ∧
  [(Store_Category, "All"); (City_Tier, "Tier 1"); (Product_Type, "Dairy")]
    ≡ₚ [(Product_Type, "Dairy"); (City_Tier, "Tier 1"); (Store_Category, "All")] ∧
  ∃ v,
    result (apply_selection 0%nat
      [(Store_Category, "All"); (City_Tier, "Tier 1"); (Product_Type, "Dairy")])
      [sample] = Some v ∧
    result (apply_selection 0%nat
      [(Product_Type, "Dairy"); (City_Tier, "Tier 1"); (Store_Category, "All")])
      [sample] = Some v ∧
    (∀ p t s,
       [(Store_Category, "All"); (City_Tier, "Tier 1"); (Product_Type, "Dairy")]
         ≡ₚ [(Product_Type, p); (City_Tier, t); (Store_Category, s)] →
       result (filtered_df 0%nat p t s) [sample] = Some v).
Proof.
  assert (Hperm :
    [(Store_Category, "All"); (City_Tier, "Tier 1"); (Product_Type, "Dairy")]
      ≡ₚ [(Product_Type, "Dairy"); (City_Tier, "Tier 1"); (Store_Category, "All")]).
  { etrans; [apply perm_swap|]. etrans; [apply perm_skip, perm_swap|]. apply perm_swap. }
  split; [reflexivity|]. split; [exact Hperm|].
  apply (filter_order_independent [sample] 0%nat sample); [reflexivity|exact Hperm].
Defined.

(** ** Missing values *)

Lemma sum_bool_from (mask : list bool) : ∀ acc,
  fold_left (λ acc (b : bool), if b then acc + 1 else acc) mask acc
  = acc + Z.of_nat (length (filter (λ b, b = true) mask)).
Proof.
  induction mask as [|b mask IH]; intros acc; cbn [fold_left].
  - cbn. lia.
  - rewrite IH, filter_cons. destruct b; cbn [length].
    + rewrite decide_True by done. cbn [length]. lia.
    + rewrite decide_False by done. lia.
Qed.

Lemma sum_bool_isnull {A} (col : Row → option A) (d : DataFrame) :
  sum_bool (isnull (getitem col d)) = Z.of_nat (length (null_rows col d)).
Proof.
  unfold sum_bool. rewrite sum_bool_from, Z.add_0_l. do 2 f_equal.
  unfold isnull, getitem, null_rows. rewrite map_map.
  induction d as [|r d IH]; [done|].
  cbn [map]. rewrite !filter_cons.
  destruct (col r) as [x|].
  - by rewrite !decide_False by done.
  - rewrite !decide_True by done. cbn [length]. by rewrite IH.
Qed.

Lemma null_rows_length {A} (col : Row → option A) (d : DataFrame) :
  (length (null_rows col d) ≤ length d)%nat.
Proof. apply length_filter. Qed.


Lemma round_half_even_error (x : Q) :
  (- (1 # 2) <= inject_Z (round_half_even x) - x <= 1 # 2)%Q.
Proof.
  unfold round_half_even.
  pose proof (Qfloor_le x) as Hlo. pose proof (Qlt_floor x) as Hhi.
  rewrite inject_Z_plus in Hhi. change (inject_Z 1) with 1%Q in Hhi.
  destruct (x - inject_Z (Qfloor x) ?= 1 # 2)%Q eqn:Hcmp.
  - apply Qeq_alt in Hcmp. destruct (Z.even (Qfloor x)).
    + split; lra.
    + rewrite inject_Z_plus. change (inject_Z 1) with 1%Q. split; lra.
  - apply Qlt_alt in Hcmp. split; lra.
  - apply Qgt_alt in Hcmp. rewrite inject_Z_plus. change (inject_Z 1) with 1%Q.
    split; lra.
Qed.


Lemma missing_data_run (h : heap) data d :
  h !! data = Some d →
  missing_data data h
  = Some ([ missing_entry "Item_Weight" (isnull (getitem Item_Weight d)) (length d);
            missing_entry "Outlet_Size" (isnull (getitem Outlet_Size d)) (length d) ],
          h).
Proof.
  intros Hd. unfold missing_data.
  by rewrite (bind_run _ _ _ _ _ (read_run _ _ _ Hd)).
Qed.

(** ** The percentages in double precision *)

Section binary64.
Import Binary64.

Lemma pow2_pos (e : Z) : (0 < 2 ^ e)%Q.
Proof. by apply Qpower_0_lt. Qed.

Lemma pow2_plus (a b : Z) : (2 ^ (a + b) == 2 ^ a * 2 ^ b)%Q.
Proof. by apply Qpower_plus. Qed.

Lemma pow2_le (a b : Z) : a <= b → (2 ^ a <= 2 ^ b)%Q.
Proof. intros H. by apply Qpower_le_compat_l. Qed.

Lemma pow2_lt (a b : Z) : a < b → (2 ^ a < 2 ^ b)%Q.
Proof. intros H. by apply Qpower_lt_compat_l. Qed.

Lemma pow2_inject (a : Z) : 0 <= a → (2 ^ a == inject_Z (2 ^ a))%Q.
Proof. intros H. symmetry. by apply (Zpower_Qpower 2). Qed.

Lemma pow2_succ (a : Z) : (2 ^ (a + 1) == 2 * 2 ^ a)%Q.
Proof. rewrite pow2_plus. change (2 ^ 1)%Q with 2%Q. ring. Qed.

Lemma pow2_minus (a b : Z) : (2 ^ (a - b) == 2 ^ a / 2 ^ b)%Q.
Proof. by apply Qpower_minus. Qed.

(** [binade] is the exponent. *)
Lemma binade_spec (x : Q) :
  (0 < x)%Q → (2 ^ binade x <= x < 2 ^ (binade x + 1))%Q.
Proof.
  intros Hx. destruct x as [n d].
  assert (Hn : 0 < n) by (unfold Qlt in Hx; cbn in Hx; lia).
  unfold binade. cbn [Qnum Qden].
  set (a := Z.log2 n). set (b := Z.log2 (Z.pos d)).
  destruct (Z.log2_spec n Hn) as [Ha1 Ha2]. fold a in Ha1, Ha2.
  destruct (Z.log2_spec (Z.pos d) ltac:(lia)) as [Hb1 Hb2]. fold b in Hb1, Hb2.
  assert (Ha0 : 0 <= a) by apply Z.log2_nonneg.
  assert (Hb0 : 0 <= b) by apply Z.log2_nonneg.
  assert (HA : (2 ^ a == inject_Z (2 ^ a))%Q) by (by apply pow2_inject).
  assert (HB : (2 ^ b == inject_Z (2 ^ b))%Q) by (by apply pow2_inject).
  assert (Hxd : (n # d == inject_Z n / inject_Z (Z.pos d))%Q) by apply Qmake_Qdiv.
  assert (Hd : (0 < inject_Z (Z.pos d))%Q) by (by rewrite <- (Zlt_Qlt 0)).
  assert (Hpa : (0 < inject_Z (2 ^ a))%Q) by (rewrite <- (Zlt_Qlt 0); lia).
  assert (Hpb : (0 < inject_Z (2 ^ b))%Q) by (rewrite <- (Zlt_Qlt 0); lia).
  (* the two bounds that hold whatever the branch *)
  assert (Hup : (n # d < 2 ^ (a - b + 1))%Q).
  { rewrite pow2_succ, pow2_minus, HA, HB, Hxd.
    apply Qlt_shift_div_r; [done|].
    assert (H : (2 * (inject_Z (2 ^ a) / inject_Z (2 ^ b)) * inject_Z (Z.pos d)
             == (2 * inject_Z (2 ^ a) * inject_Z (Z.pos d)) / inject_Z (2 ^ b))%Q)
      by (field; intros H0; rewrite H0 in Hpb; by apply Qlt_irrefl in Hpb).
    rewrite H. apply Qlt_shift_div_l; [done|].
    change 2%Q with (inject_Z 2).
    rewrite <- !inject_Z_mult, <- Zlt_Qlt.
    rewrite Z.pow_succ_r in Ha2 by done. nia. }
  assert (Hlow : (2 ^ (a - b - 1) <= n # d)%Q).
  { assert (H1 : (2 ^ (a - b - 1) == inject_Z (2 ^ a) / (2 * inject_Z (2 ^ b)))%Q).
    { replace (a - b - 1) with (a - (b + 1)) by lia.
      rewrite pow2_minus, pow2_succ, HA, HB. reflexivity. }
    rewrite H1, Hxd.
    apply Qle_shift_div_r; [lra|].
    assert (H : (inject_Z n / inject_Z (Z.pos d) * (2 * inject_Z (2 ^ b))
             == (inject_Z n * 2 * inject_Z (2 ^ b)) / inject_Z (Z.pos d))%Q)
      by (field; intros H0; rewrite H0 in Hd; by apply Qlt_irrefl in Hd).
    rewrite H. apply Qle_shift_div_l; [done|].
    change 2%Q with (inject_Z 2).
    rewrite <- !inject_Z_mult, <- Zle_Qle.
    rewrite Z.pow_succ_r in Hb2 by done. nia. }
  destruct (Qle_bool (2 ^ (a - b)) (n # d)) eqn:Hle.
  - apply Qle_bool_iff in Hle. split; done.
  - split.
    + done.
    + replace (a - b - 1 + 1) with (a - b) by lia.
      apply Qnot_le_lt. intros H%Qle_bool_iff. congruence.
Qed.

Lemma binade_le (x : Q) (m : Z) : (0 < x)%Q → (x <= 2 ^ m)%Q → binade x <= m.
Proof.
  intros Hx Hm. destruct (binade_spec x Hx) as [Hlo _].
  destruct (Z_le_gt_dec (binade x) m) as [|Hgt]; [done|].
  assert (H : (2 ^ m < 2 ^ binade x)%Q) by (apply pow2_lt; lia). lra.
Qed.

Lemma binade_lt (x : Q) (m : Z) : (0 < x)%Q → (x < 2 ^ m)%Q → binade x < m.
Proof.
  intros Hx Hm. destruct (binade_spec x Hx) as [Hlo _].
  destruct (Z_lt_ge_dec (binade x) m) as [|Hge]; [done|].
  assert (H : (2 ^ m <= 2 ^ binade x)%Q) by (apply pow2_le; lia). lra.
Qed.

Lemma round_half_even_Z (z : Z) : round_half_even (inject_Z z) = z.
Proof.
  unfold round_half_even. rewrite Qfloor_Z.
  assert (H : (inject_Z z - inject_Z z < 1 # 2)%Q) by lra.
  rewrite Qlt_alt in H. by rewrite H.
Qed.

Lemma round_half_even_mono (x y : Q) :
  (x <= y)%Q → round_half_even x <= round_half_even y.
Proof.
  intros Hxy.
  pose proof (Qfloor_resp_le _ _ Hxy) as Hf.
  pose proof (Qfloor_le x) as Hx1. pose proof (Qlt_floor x) as Hx2.
  pose proof (Qfloor_le y) as Hy1. pose proof (Qlt_floor y) as Hy2.
  rewrite inject_Z_plus in Hx2, Hy2. change (inject_Z 1) with 1%Q in Hx2, Hy2.
  unfold round_half_even.
  destruct (Z.eq_dec (Qfloor x) (Qfloor y)) as [Heq|Hne].
  - rewrite <- Heq in *.
    destruct (x - inject_Z (Qfloor x) ?= 1 # 2)%Q eqn:Hcx;
      destruct (y - inject_Z (Qfloor x) ?= 1 # 2)%Q eqn:Hcy;
      try (destruct (Z.even (Qfloor x)); lia); try lia; exfalso;
      first [apply Qeq_alt in Hcx|apply Qlt_alt in Hcx|apply Qgt_alt in Hcx];
      first [apply Qeq_alt in Hcy|apply Qlt_alt in Hcy|apply Qgt_alt in Hcy];
      lra.
  - assert (Qfloor x + 1 <= Qfloor y) by lia.
    destruct (x - inject_Z (Qfloor x) ?= 1 # 2)%Q;
      destruct (y - inject_Z (Qfloor y) ?= 1 # 2)%Q;
      repeat match goal with |- context [Z.even ?z] => destruct (Z.even z) end; lia.
Qed.

Lemma div_pow2 (x : Q) (e : Z) : (x / 2 ^ e * 2 ^ e == x)%Q.
Proof. field. pose proof (pow2_pos e). lra. Qed.

Lemma div_pow2_le (x y : Q) (e : Z) : (x <= y)%Q → (x / 2 ^ e <= y / 2 ^ e)%Q.
Proof.
  intros H. pose proof (pow2_pos e) as He.
  apply Qle_shift_div_l; [done|]. rewrite div_pow2. done.
Qed.

Lemma pow2_div (a e : Z) : (2 ^ a / 2 ^ e == 2 ^ (a - e))%Q.
Proof. by rewrite pow2_minus. Qed.

(** Rounding keeps the order. *)
Lemma nearest_mono (x y : Q) :
  (0 < x)%Q → (x <= y)%Q → (nearest x <= nearest y)%Q.
Proof.
  intros Hx Hxy. assert (Hy : (0 < y)%Q) by lra.
  destruct (binade_spec x Hx) as [Hx1 Hx2]. destruct (binade_spec y Hy) as [Hy1 Hy2].
  assert (Hb : binade x <= binade y).
  { assert (binade x < binade y + 1) by (apply binade_lt; [done|lra]). lia. }
  unfold nearest.
  set (ex := Z.max (binade x - 52) (-1074)). set (ey := Z.max (binade y - 52) (-1074)).
  destruct (Z.eq_dec ex ey) as [Heq|Hne].
  - rewrite <- Heq. apply Qmult_le_compat_r; [|apply Qlt_le_weak, pow2_pos].
    rewrite <- Zle_Qle. apply round_half_even_mono. by apply div_pow2_le.
  - assert (Hey : ey = binade y - 52) by lia.
    assert (Hlt : binade x < binade y) by lia.
    assert (Hex : 0 <= binade y - ex) by lia.
    apply Qle_trans with (2 ^ binade y)%Q.
    + assert (Hk : round_half_even (x / 2 ^ ex) <= 2 ^ (binade y - ex)).
      { rewrite <- (round_half_even_Z (2 ^ (binade y - ex))).
        apply round_half_even_mono.
        rewrite <- pow2_inject, <- pow2_div by done. apply div_pow2_le.
        apply Qle_trans with (2 ^ (binade x + 1))%Q; [lra|]. apply pow2_le. lia. }
      rewrite Zle_Qle in Hk. rewrite <- pow2_inject in Hk by done.
      assert (Hs : (2 ^ binade y == 2 ^ (binade y - ex) * 2 ^ ex)%Q).
      { rewrite <- pow2_plus. by replace (binade y - ex + ex) with (binade y) by lia. }
      rewrite Hs. apply Qmult_le_compat_r; [done|apply Qlt_le_weak, pow2_pos].
    + assert (Hk : 2 ^ 52 <= round_half_even (y / 2 ^ ey)).
      { rewrite <- (round_half_even_Z (2 ^ 52)) at 1.
        apply round_half_even_mono.
        rewrite <- pow2_inject by done.
        assert (Hs : (2 ^ 52 == 2 ^ binade y / 2 ^ ey)%Q).
        { rewrite pow2_div. by replace (binade y - ey) with 52 by lia. }
        rewrite Hs. by apply div_pow2_le. }
      rewrite Zle_Qle in Hk. rewrite <- pow2_inject in Hk by done.
      assert (Hs : (2 ^ binade y == 2 ^ 52 * 2 ^ ey)%Q).
      { rewrite <- pow2_plus. by replace (52 + ey) with (binade y) by lia. }
      rewrite Hs. apply Qmult_le_compat_r; [done|apply Qlt_le_weak, pow2_pos].
Qed.

Lemma nearest_nonneg (x : Q) : (0 < x)%Q → (0 <= nearest x)%Q.
Proof.
  intros Hx. unfold nearest. apply Qmult_le_0_compat; [|apply Qlt_le_weak, pow2_pos].
  change 0%Q with (inject_Z 0). rewrite <- Zle_Qle.
  rewrite <- (round_half_even_Z 0) at 1. apply round_half_even_mono.
  apply Qle_shift_div_l; [apply pow2_pos|]. change (inject_Z 0) with 0%Q. lra.
Qed.

Lemma binary64_round_zero (x : Q) : (x == 0)%Q → round x = 0%Q.
Proof. intros H. unfold round. rewrite Qeq_alt in H. by rewrite H. Qed.

Lemma binary64_round_pos (x : Q) : (0 < x)%Q → round x = nearest x.
Proof. intros H. unfold round. rewrite Qgt_alt in H. by rewrite H. Qed.

Lemma binary64_round_mono (x y : Q) :
  (0 <= x)%Q → (x <= y)%Q → (round x <= round y)%Q.
Proof.
  intros Hx Hxy. destruct (Qlt_le_dec 0 x) as [Hx0|Hx0].
  - rewrite !binary64_round_pos by lra. by apply nearest_mono.
  - rewrite (binary64_round_zero x) by lra. destruct (Qlt_le_dec 0 y) as [Hy0|Hy0].
    + rewrite binary64_round_pos by done. by apply nearest_nonneg.
    + rewrite (binary64_round_zero y) by lra. lra.
Qed.

Lemma binary64_round_nonneg (x : Q) : (0 <= x)%Q → (0 <= round x)%Q.
Proof. intros Hx. rewrite <- (binary64_round_zero 0) at 1 by reflexivity. by apply binary64_round_mono. Qed.

(** Below [2^m] rounding moves a number by at most half a unit in the
    last place of that range, [2^(m-53)]. *)
Lemma binary64_round_error (x : Q) (m : Z) :
  (0 <= x <= 2 ^ m)%Q → -1022 <= m →
  (- 2 ^ (m - 53) <= round x - x <= 2 ^ (m - 53))%Q.
Proof.
  intros [Hx0 Hxm] Hm. pose proof (pow2_pos (m - 53)) as Hp.
  destruct (Qlt_le_dec 0 x) as [Hx|Hx].
  - rewrite binary64_round_pos by done. unfold nearest.
    pose proof (binade_le x m Hx Hxm) as Hb.
    set (e := Z.max (binade x - 52) (-1074)).
    assert (He : e <= m - 52) by lia.
    pose proof (round_half_even_error (x / 2 ^ e)) as [Hl Hu].
    set (k := inject_Z (round_half_even (x / 2 ^ e))) in *.
    pose proof (pow2_pos e) as Hpe.
    assert (Hxe : (x == x / 2 ^ e * 2 ^ e)%Q) by (by rewrite div_pow2).
    assert (Hee : (2 ^ e <= 2 * 2 ^ (m - 53))%Q).
    { rewrite <- pow2_succ. apply pow2_le. lia. }
    set (q := (x / 2 ^ e)%Q) in *. set (p := (2 ^ e)%Q) in *.
    set (P := (2 ^ (m - 53))%Q) in *.
    assert (H1 : (- (1 # 2) * p <= (k - q) * p)%Q)
      by (apply Qmult_le_compat_r; lra).
    assert (H2 : ((k - q) * p <= (1 # 2) * p)%Q)
      by (apply Qmult_le_compat_r; lra).
    assert (H3 : (k * p - x == (k - q) * p)%Q) by (rewrite Hxe at 1; ring).
    rewrite H3. split; lra.
  - rewrite (binary64_round_zero x) by lra. split; lra.
Qed.

(** The integers below [2^53] are binary64 numbers. *)
Lemma binary64_round_exact (z : Z) :
  0 <= z < 2 ^ 53 → (round (inject_Z z) == inject_Z z)%Q.
Proof.
  intros [Hz0 Hz]. destruct (Z.eq_dec z 0) as [->|Hne]; [reflexivity|].
  assert (Hx : (0 < inject_Z z)%Q) by (rewrite <- (Zlt_Qlt 0); lia).
  rewrite binary64_round_pos by done. unfold nearest.
  assert (Hb : binade (inject_Z z) < 53).
  { apply binade_lt; [done|]. rewrite pow2_inject by done. by rewrite <- Zlt_Qlt. }
  set (e := Z.max (binade (inject_Z z) - 52) (-1074)).
  assert (He : 0 <= - e) by lia.
  assert (Hq : (inject_Z z / 2 ^ e == inject_Z (z * 2 ^ (- e)))%Q).
  { rewrite inject_Z_mult, <- pow2_inject by done.
    rewrite Qpower_opp. field. pose proof (pow2_pos e). lra. }
  assert (Hr : round_half_even (inject_Z z / 2 ^ e) = z * 2 ^ (- e)).
  { rewrite <- (round_half_even_Z (z * 2 ^ (- e))).
    apply Z.le_antisymm; apply round_half_even_mono; rewrite Hq; lra. }
  rewrite Hr, inject_Z_mult, <- pow2_inject by done.
  rewrite Qpower_opp. field. pose proof (pow2_pos e). lra.
Qed.

Lemma binary64_round_proper (x y : Q) :
  (0 <= x)%Q → (x == y)%Q → (round x == round y)%Q.
Proof.
  intros Hx Hxy. apply Qle_antisym; apply binary64_round_mono; lra.
Qed.

Lemma binary64_round_1 : (round 1 == 1)%Q.
Proof. by vm_compute. Qed.

Lemma binary64_round_100 : (round 100 == 100)%Q.
Proof. by vm_compute. Qed.

Lemma binary64_round_10000 : (round 10000 == 10000)%Q.
Proof. by vm_compute. Qed.

Lemma binary64_round_bounds (x hi : Q) :
  (0 <= x <= hi)%Q → (round hi == hi)%Q → (0 <= round x <= hi)%Q.
Proof.
  intros [H0 Hhi] Hfix. split; [by apply binary64_round_nonneg|].
  rewrite <- Hfix. by apply binary64_round_mono.
Qed.

Ltac round_error_at x m :=
  let H := fresh "Herr" in
  let c := fresh "c" in
  pose proof (binary64_round_error x m) as H;
  set (c := (2 ^ (m - 53))%Q) in H; vm_compute in c; subst c;
  set (c := (2 ^ m)%Q) in H; vm_compute in c; subst c.

Lemma of_int_pos (n : Z) : 0 < n → (1 <= of_int n)%Q.
Proof.
  intros Hn. unfold of_int. rewrite <- binary64_round_1. apply binary64_round_mono; [lra|].
  change 1%Q with (inject_Z 1). rewrite <- Zle_Qle. lia.
Qed.

Lemma of_int_mono (a b : Z) : 0 <= a <= b → (0 <= of_int a <= of_int b)%Q.
Proof.
  intros [Ha Hab]. unfold of_int.
  assert (H0 : (0 <= inject_Z a)%Q) by (by rewrite <- (Zle_Qle 0)).
  split; [by apply binary64_round_nonneg|]. apply binary64_round_mono; [done|]. by rewrite <- Zle_Qle.
Qed.

Lemma ratio_bounds (c n : Z) :
  0 <= c <= n → 0 < n →
  (0 <= div (of_int c) (of_int n) <= 1)%Q.
Proof.
  intros Hc Hn. unfold div.
  destruct (of_int_mono c n Hc) as [Hc0 Hcn]. pose proof (of_int_pos n Hn) as Hn1.
  apply binary64_round_bounds; [|apply binary64_round_1]. split.
  - apply Qle_shift_div_l; lra.
  - apply Qle_shift_div_r; lra.
Qed.

(** The percentage is between 0 and 100. *)
Lemma float64_percentage_bounds (c : Z) (n : nat) :
  0 <= c <= Z.of_nat n → (0 <= Float64.missing_percentage c n <= 100)%Q.
Proof.
  intros Hc. unfold Float64.missing_percentage.
  destruct (decide (0 < n)%nat) as [Hn|Hn]; [|split; discriminate].
  destruct (ratio_bounds c (Z.of_nat n) Hc ltac:(lia)) as [H0 H1].
  unfold mul. apply binary64_round_bounds; [lra|apply binary64_round_100].
Qed.

(** Two decimals of a percentage. *)
Lemma binary64_round2_hundredths (x : Q) :
  (0 <= x <= 100)%Q →
  ∃ k : Z, 0 <= k <= 10000 ∧ Binary64.round2 x = div (inject_Z k) 100 ∧
    (0 <= Binary64.round2 x <= 100)%Q.
Proof.
  intros [H0 H100]. exists (round_half_even (mul x 100)).
  assert (Ht : (0 <= mul x 100 <= 10000)%Q).
  { unfold mul. apply binary64_round_bounds; [lra|apply binary64_round_10000]. }
  assert (Hk : 0 <= round_half_even (mul x 100) <= 10000).
  { split.
    - rewrite <- (round_half_even_Z 0) at 1. apply round_half_even_mono.
      change (inject_Z 0) with 0%Q. lra.
    - rewrite <- (round_half_even_Z 10000). apply round_half_even_mono.
      change (inject_Z 10000) with 10000%Q. lra. }
  split; [done|]. split; [reflexivity|].
  unfold Binary64.round2, rint, div.
  set (k := round_half_even (mul x 100)) in *.
  assert (Hk0 : (0 <= inject_Z k)%Q) by (rewrite <- (Zle_Qle 0); lia).
  assert (Hk1 : (inject_Z k <= 10000)%Q)
    by (change 10000%Q with (inject_Z 10000); rewrite <- Zle_Qle; lia).
  apply binary64_round_bounds; [|apply binary64_round_100]. split.
  - apply Qle_shift_div_l; lra.
  - apply Qle_shift_div_r; lra.
Qed.

Lemma binary64_round2_error (x : Q) :
  (0 <= x <= 100)%Q →
  (- (1 # 200) - (1 # 2 ^ 44) <= Binary64.round2 x - x <= (1 # 200) + (1 # 2 ^ 44))%Q.
Proof.
  intros [H0 H100].
  assert (Ht : (0 <= mul x 100 <= 10000)%Q).
  { unfold mul. apply binary64_round_bounds; [lra|apply binary64_round_10000]. }
  unfold Binary64.round2, rint, div. unfold mul in *.
  round_error_at (x * 100)%Q 14.
  destruct Herr as [He1 He2]; [lra|lia|].
  set (t := round (x * 100)) in *.
  pose proof (round_half_even_error t) as [Hr1 Hr2].
  assert (Hk : 0 <= round_half_even t <= 10000).
  { split.
    - rewrite <- (round_half_even_Z 0) at 1. apply round_half_even_mono.
      change (inject_Z 0) with 0%Q. lra.
    - rewrite <- (round_half_even_Z 10000). apply round_half_even_mono.
      change (inject_Z 10000) with 10000%Q. lra. }
  set (k := round_half_even t) in *.
  assert (Hk0 : (0 <= inject_Z k)%Q) by (rewrite <- (Zle_Qle 0); lia).
  assert (Hk1 : (inject_Z k <= 10000)%Q)
    by (change 10000%Q with (inject_Z 10000); rewrite <- Zle_Qle; lia).
  assert (Hq : (inject_Z k / 100 == inject_Z k * (1 # 100))%Q) by (field; discriminate).
  round_error_at (inject_Z k / 100)%Q 7.
  set (u := (inject_Z k / 100)%Q) in *.
  destruct Herr as [Hf1 Hf2]; [lra|lia|].
  change (2 ^ 44)%positive with 17592186044416%positive.
  split; lra.
Qed.

Lemma of_int_exact (z : Z) : 0 <= z < 2 ^ 53 → (of_int z == inject_Z z)%Q.
Proof. apply binary64_round_exact. Qed.

Lemma round_half_even_proper (x y : Q) :
  (x == y)%Q → round_half_even x = round_half_even y.
Proof. intros H. apply Z.le_antisymm; apply round_half_even_mono; lra. Qed.

(** The percentage against one hundred times the exact fraction. *)
Lemma float64_percentage_accuracy (c : Z) (n : nat) :
  0 <= c <= Z.of_nat n → (0 < n)%nat → Z.of_nat n < 2 ^ 53 →
  (- (1 # 2 ^ 45)
   <= Float64.missing_percentage c n - 100 * (inject_Z c / inject_Z (Z.of_nat n))
   <= 1 # 2 ^ 45)%Q.
Proof.
  intros Hc Hn Hsmall. unfold Float64.missing_percentage. rewrite decide_True by done.
  assert (Hc' : (0 <= inject_Z c)%Q) by (rewrite <- (Zle_Qle 0); lia).
  assert (Hn' : (0 < inject_Z (Z.of_nat n))%Q) by (rewrite <- (Zlt_Qlt 0); lia).
  assert (Hcn : (inject_Z c <= inject_Z (Z.of_nat n))%Q) by (rewrite <- Zle_Qle; lia).
  set (q := (inject_Z c / inject_Z (Z.of_nat n))%Q).
  assert (Hq : (0 <= q <= 1)%Q).
  { split; [apply Qle_shift_div_l|apply Qle_shift_div_r]; try done; lra. }
  destruct (ratio_bounds c (Z.of_nat n) Hc ltac:(lia)) as [Hr0 Hr1].
  assert (Hr : (div (of_int c) (of_int (Z.of_nat n)) == round q)%Q).
  { unfold div. apply Qle_antisym; apply binary64_round_mono;
      rewrite ?(of_int_exact c), ?(of_int_exact (Z.of_nat n)) by lia;
      fold q; lra. }
  set (r := div (of_int c) (of_int (Z.of_nat n))) in *.
  round_error_at q 0. destruct Herr as [Hq1 Hq2]; [lra|lia|].
  unfold mul. round_error_at (r * 100)%Q 7.
  destruct Herr as [Hp1 Hp2]; [lra|lia|].
  change (2 ^ 45)%positive with 35184372088832%positive.
  split; lra.
Qed.

Lemma float64_percentage_none (n : nat) : Float64.missing_percentage 0 n = 0%Q.
Proof.
  unfold Float64.missing_percentage. destruct (decide (0 < n)%nat); [|done].
  unfold mul, div. change (of_int 0) with 0%Q.
  rewrite (binary64_round_zero (0 / of_int (Z.of_nat n))) by (unfold Qdiv; ring).
  by rewrite binary64_round_zero.
Qed.

Lemma float64_percentage_all (n : nat) :
  (0 < n)%nat → (Float64.missing_percentage (Z.of_nat n) n == 100)%Q.
Proof.
  intros Hn. unfold Float64.missing_percentage. rewrite decide_True by done.
  pose proof (of_int_pos (Z.of_nat n) ltac:(lia)) as Hpos.
  set (x := of_int (Z.of_nat n)) in *.
  assert (H1 : (x / x == 1)%Q) by (field; lra).
  assert (Hr : (div x x == 1)%Q).
  { unfold div. transitivity (round 1); [|apply binary64_round_1].
    apply binary64_round_proper; lra. }
  unfold mul. transitivity (round 100); [|apply binary64_round_100].
  apply binary64_round_proper; lra.
Qed.

Lemma binary64_round2_zero : Binary64.round2 0 = 0%Q.
Proof. reflexivity. Qed.

Lemma binary64_round2_proper (x y : Q) :
  (0 <= x)%Q → (x == y)%Q → (Binary64.round2 x == Binary64.round2 y)%Q.
Proof.
  intros Hx Hxy. unfold Binary64.round2, rint, div, mul.
  assert (Ht : (round (x * 100) == round (y * 100))%Q)
    by (apply binary64_round_proper; lra).
  rewrite (round_half_even_proper _ _ Ht). reflexivity.
Qed.

Lemma binary64_round2_100 : (Binary64.round2 100 == 100)%Q.
Proof. by vm_compute. Qed.

End binary64.

Lemma float64_missing_data_run (h : heap) data d :
  h !! data = Some d →
  Float64.missing_data data h
  = Some ([ Float64.missing_entry "Item_Weight"
              (isnull (getitem Item_Weight d)) (length d);
            Float64.missing_entry "Outlet_Size"
              (isnull (getitem Outlet_Size d)) (length d) ],
          h).
Proof.
  intros Hd. unfold Float64.missing_data.
  by rewrite (bind_run _ _ _ _ _ (read_run _ _ _ Hd)).
Qed.

(** What the loop body reports for a column with [c] missing cells in a
    view of [n] rows. *)
Lemma float64_missing_entry col (nulls : list bool) (c n : nat) :
  sum_bool nulls = Z.of_nat c → (c ≤ n)%nat →
  let e := Float64.missing_entry col nulls n in
  let p := Float64.missing_percentage (Missing_Values e) n in
  let exact := (100 * (inject_Z (Missing_Values e) / inject_Z (Z.of_nat n)))%Q in
  Column e = col ∧ Missing_Values e = Z.of_nat c ∧
  (0 <= p <= 100)%Q ∧
  (∃ k : Z, 0 ≤ k ≤ 10000 ∧ Percentage e = Binary64.div (inject_Z k) 100) ∧
  (0 <= Percentage e <= 100)%Q ∧
  (- (1 # 200) - (1 # 2 ^ 44) <= Percentage e - p <= (1 # 200) + (1 # 2 ^ 44))%Q ∧
  (n = 0%nat → p = 0%Q ∧ Percentage e = 0%Q) ∧
  (Missing_Values e = 0 → p = 0%Q ∧ Percentage e = 0%Q) ∧
  ((0 < n)%nat → Missing_Values e = Z.of_nat n →
     (p == 100)%Q ∧ (Percentage e == 100)%Q) ∧
  ((0 < n)%nat → Z.of_nat n < 2 ^ 53 →
     (- (1 # 2 ^ 45) <= p - exact <= 1 # 2 ^ 45)%Q ∧
     (- (1 # 200) - (1 # 2 ^ 43) <= Percentage e - exact
      <= (1 # 200) + (1 # 2 ^ 43))%Q).
Proof.
  intros Hc Hcn e p exact. subst e p exact.
  unfold Float64.missing_entry. cbn [Column Missing_Values Percentage].
  rewrite Hc. set (p := Float64.missing_percentage (Z.of_nat c) n).
  assert (Hp : (0 <= p <= 100)%Q) by (apply float64_percentage_bounds; lia).
  destruct (binary64_round2_hundredths p Hp) as (k & Hk & Hround & Hbounds).
  pose proof (binary64_round2_error p Hp) as Herr.
  split; [done|]. split; [done|]. split; [done|].
  split; [by exists k|]. split; [done|]. split; [done|].
  split.
  { intros ->. subst p. unfold Float64.missing_percentage.
    by rewrite decide_False by lia. }
  split.
  { intros H0. subst p. rewrite H0, float64_percentage_none. done. }
  split.
  { intros Hn Hall. subst p. rewrite Hall.
    pose proof (float64_percentage_all n Hn) as H100. split; [done|].
    transitivity (Binary64.round2 100); [|apply binary64_round2_100].
    apply binary64_round2_proper; [|done]. rewrite H100. discriminate. }
  intros Hn Hsmall.
  pose proof (float64_percentage_accuracy (Z.of_nat c) n ltac:(lia) Hn Hsmall) as Hacc.
  fold p in Hacc.
  change (2 ^ 43)%positive with 8796093022208%positive.
  change (2 ^ 44)%positive with 17592186044416%positive in Herr.
  change (2 ^ 45)%positive with 35184372088832%positive in Hacc |- *.
  split; [done|]. split; lra.
Qed.

(** C3, as the code has it.  For each of the two inspected columns the
    missing-values analysis reports the number of rows of the view whose
    cell is missing and a percentage, computed in double precision: a
    number between 0 and 100, which is 0 when no cell is missing, 100 when
    every cell is, and, in a view of fewer than 2^53 rows, within 2^-45 of
    one hundred times the fraction of such rows.  The table shows it
    rounded to two decimals: the double nearest to a whole number of
    hundredths, again between 0 and 100, within 0.005 + 2^-44 of the
    percentage and so within 0.005 + 2^-43 of one hundred times the
    fraction.  On a view without rows the percentage is 0 and nothing is
    divided.  The view is only read. *)
Theorem missing_data_percentage (h : heap) data d :
  h !! data = Some d →
  ∃ weight size,
    Float64.missing_data data h = Some ([weight; size], h) ∧
    (Column weight = "Item_Weight" ∧
     Missing_Values weight = Z.of_nat (length (null_rows Item_Weight d))) ∧
    (Column size = "Outlet_Size" ∧
     Missing_Values size = Z.of_nat (length (null_rows Outlet_Size d))) ∧
    ∀ e, e ∈ [weight; size] →
      let p := Float64.missing_percentage (Missing_Values e) (length d) in
      let exact :=
        (100 * (inject_Z (Missing_Values e) / inject_Z (Z.of_nat (length d))))%Q in
      0 ≤ Missing_Values e ≤ Z.of_nat (length d) ∧
      (0 <= p <= 100)%Q ∧
      (∃ k : Z, 0 ≤ k ≤ 10000 ∧ Percentage e = Binary64.div (inject_Z k) 100) ∧
      (0 <= Percentage e <= 100)%Q ∧
      (- (1 # 200) - (1 # 2 ^ 44) <= Percentage e - p
       <= (1 # 200) + (1 # 2 ^ 44))%Q ∧
      (length d = 0%nat → p = 0%Q ∧ Percentage e = 0%Q) ∧
      (Missing_Values e = 0 → p = 0%Q ∧ Percentage e = 0%Q) ∧
      ((0 < length d)%nat → Missing_Values e = Z.of_nat (length d) →
         (p == 100)%Q ∧ (Percentage e == 100)%Q) ∧
      ((0 < length d)%nat → Z.of_nat (length d) < 2 ^ 53 →
         (- (1 # 2 ^ 45) <= p - exact <= 1 # 2 ^ 45)%Q ∧
         (- (1 # 200) - (1 # 2 ^ 43) <= Percentage e - exact
          <= (1 # 200) + (1 # 2 ^ 43))%Q).
Proof.
  intros Hd. rewrite (float64_missing_data_run _ _ _ Hd).
  pose proof (float64_missing_entry "Item_Weight" _ _ (length d)
    (sum_bool_isnull Item_Weight d) (null_rows_length Item_Weight d)) as Hw.
  pose proof (float64_missing_entry "Outlet_Size" _ _ (length d)
    (sum_bool_isnull Outlet_Size d) (null_rows_length Outlet_Size d)) as Hs.
  cbv zeta in Hw, Hs.
  destruct Hw as (Hw1 & Hw2 & Hw).
  destruct Hs as (Hs1 & Hs2 & Hs).
  eexists _, _. split; [reflexivity|]. split; [done|]. split; [done|].
  intros e He. cbv zeta.
  pose proof (null_rows_length Item_Weight d). pose proof (null_rows_length Outlet_Size d).
  apply elem_of_cons in He as [->|He]; [|apply list_elem_of_singleton in He as ->].
  - split; [rewrite Hw2; lia|exact Hw].
  - split; [rewrite Hs2; lia|exact Hs].
Qed.

Lemma missing_data_percentage_witness :
  [sample] !! 0%nat = Some sample ∧
  ∃ weight size,
    Float64.missing_data 0%nat [sample] = Some ([weight; size], [sample]) ∧
    (Column weight = "Item_Weight" ∧
     Missing_Values weight = Z.of_nat (length (null_rows Item_Weight sample))) ∧
    (Column size = "Outlet_Size" ∧
     Missing_Values size = Z.of_nat (length (null_rows Outlet_Size sample))) ∧
    ∀ e, e ∈ [weight; size] →
      let p := Float64.missing_percentage (Missing_Values e) (length sample) in
      let exact :=
        (100 * (inject_Z (Missing_Values e)
                / inject_Z (Z.of_nat (length sample))))%Q in
      0 ≤ Missing_Values e ≤ Z.of_nat (length sample) ∧
      (0 <= p <= 100)%Q ∧
      (∃ k : Z, 0 ≤ k ≤ 10000 ∧ Percentage e = Binary64.div (inject_Z k) 100) ∧
      (0 <= Percentage e <= 100)%Q ∧
      (- (1 # 200) - (1 # 2 ^ 44) <= Percentage e - p
       <= (1 # 200) + (1 # 2 ^ 44))%Q ∧
      (length sample = 0%nat → p = 0%Q ∧ Percentage e = 0%Q) ∧
      (Missing_Values e = 0 → p = 0%Q ∧ Percentage e = 0%Q) ∧
      ((0 < length sample)%nat → Missing_Values e = Z.of_nat (length sample) →
         (p == 100)%Q ∧ (Percentage e == 100)%Q) ∧
      ((0 < length sample)%nat → Z.of_nat (length sample) < 2 ^ 53 →
         (- (1 # 2 ^ 45) <= p - exact <= 1 # 2 ^ 45)%Q ∧
         (- (1 # 200) - (1 # 2 ^ 43) <= Percentage e - exact
          <= (1 # 200) + (1 # 2 ^ 43))%Q).
Proof.
  split; [reflexivity|].
  apply (missing_data_percentage [sample] 0%nat sample). reflexivity.
Defined.

(** The model on known values: 0.1 is the double 3602879701896397 / 2^55;
    numpy rounds the double nearest to 2.675 to 2.68 and the one nearest to
    1.015 to 1.01. *)
Example binary64_round2_numpy :
  (Binary64.round (1 # 10) == 3602879701896397 # 36028797018963968)%Q ∧
  (Binary64.round2 (Binary64.round (2675 # 1000)) == Binary64.round (268 # 100))%Q ∧
  (Binary64.round2 (Binary64.round (1015 # 1000)) == Binary64.round (101 # 100))%Q.
Proof. split; [by vm_compute|]. split; by vm_compute. Qed.

(** The percentages of 23 and of 49 missing cells in 160 rows as the
    interpreter computes them: 14.374999999999998, shown as 14.37, and
    30.625000000000004, shown as 30.63; and those of the sample table, where
    one weight of three and two sizes of three are missing, shown as 33.33
    and 66.67. *)
Example float64_percentages :
  (Float64.missing_percentage 23 160 == 8092405580431359 # 562949953421312)%Q ∧
  (Binary64.round2 (Float64.missing_percentage 23 160)
   == Binary64.div 1437 100)%Q ∧
  (Binary64.div 1437 100 == 8089590830664253 # 562949953421312)%Q ∧
  (Float64.missing_percentage 49 160 == 8620171161763841 # 281474976710656)%Q ∧
  (Binary64.round2 (Float64.missing_percentage 49 160)
   == Binary64.div 3063 100)%Q ∧
  (Binary64.div 3063 100 == 8621578536647393 # 281474976710656)%Q ∧
  ((λ out, map Percentage out.1) <$> Float64.missing_data 0%nat [sample])
  = Some [Binary64.div 3333 100; Binary64.div 6667 100].
Proof.
  split; [by vm_compute|]. split; [by vm_compute|]. split; [by vm_compute|].
  split; [by vm_compute|]. split; [by vm_compute|]. split; by vm_compute.
Qed.

(** C3, read as a fraction between 0 and 1, fails: narrowed to city tier
    ["Tier 2"] the sample table has one row, whose weight is missing, and
    the analysis reports 100 for the weight column, which is not a number
    between 0 and 1; in double precision as on exact values. *)
Lemma missing_rate_not_a_fraction :
  ∃ out h' weight size,
    run 0%nat "All" "Tier 2" "All" [sample] = Some (out, h') ∧
    missing out = [weight; size] ∧
    Missing_Values weight = 1 ∧
    (missing_percentage (Missing_Values weight) 1 == 100)%Q ∧
    (Percentage weight == 100)%Q ∧
    ¬ (Percentage weight <= 1)%Q ∧
    ∃ weight64 size64,
      Float64.missing_data (view out) h' = Some ([weight64; size64], h') ∧
      Missing_Values weight64 = 1 ∧
      (Float64.missing_percentage (Missing_Values weight64) 1 == 100)%Q ∧
      (Percentage weight64 == 100)%Q ∧
      ¬ (Percentage weight64 <= 1)%Q.
Proof.
  eexists _, _, _, _. split; [vm_compute; reflexivity|].
  split; [reflexivity|]. split; [reflexivity|].
  split; [reflexivity|]. split; [reflexivity|]. split; [by vm_compute|].
  eexists _, _. split; [vm_compute; reflexivity|].
  split; [reflexivity|]. split; [by vm_compute|]. split; by vm_compute.
Qed.

(** ** Group-by tables *)

Section groupby.
Context {K : Type} `{EqDecision K}.
Context (leb : K → K → bool) (key : Row → option K) (val : Row → Q).

Lemma elem_of_groupby (d : DataFrame) k g :
  (k, g) ∈ groupby leb key d ↔ g = filter (λ r, key r = Some k) d ∧ g ≠ [].
Proof.
  unfold groupby. by rewrite sort_values_elem_of, elem_of_groups, keyed_group.
Qed.

Lemma groupby_NoDup (d : DataFrame) : NoDup (groupby leb key d).*1.
Proof.
  unfold groupby. rewrite sort_values_perm. apply groups_NoDup.
Qed.

Lemma groupby_nil : groupby leb key [] = [].
Proof. done. Qed.

Lemma elem_of_groupby_sum (d : DataFrame) k x :
  (k, x) ∈ groupby_sum leb key val d ↔
  filter (λ r, key r = Some k) d ≠ [] ∧
  x = sum (getitem val (filter (λ r, key r = Some k) d)).
Proof.
  unfold groupby_sum. rewrite list_elem_of_fmap. split.
  - intros ([k' g] & [= -> ->] & [-> Hne]%elem_of_groupby). done.
  - intros [Hne ->]. exists (k, filter (λ r, key r = Some k) d).
    split; [done|]. by apply elem_of_groupby.
Qed.


Lemma groupby_sum_keys (d : DataFrame) :
  (groupby_sum leb key val d).*1 = (groupby leb key d).*1.
Proof. unfold groupby_sum. rewrite <- list_fmap_compose. done. Qed.

Lemma groupby_mean_keys (d : DataFrame) :
  (groupby_mean leb key val d).*1 = (groupby leb key d).*1.
Proof. unfold groupby_mean. rewrite <- list_fmap_compose. done. Qed.
End groupby.

(** ** Column assignment on a copy *)

Lemma set_column_map {A} (set : A → Row → Row) (f : Row → A) (d : DataFrame) :
  set_column set d (map f d) = Some (map (λ r, set (f r) r) d).
Proof.
  induction d as [|r d IH]; [done|]. cbn [map set_column]. by rewrite IH.
Qed.

Lemma setitem_run {A} (h : heap) l (set : A → Row → Row) series (f : Row → A) d :
  h !! l = Some d →
  series d = map f d →
  setitem l set series h = Some ((), <[l := map (λ r, set (f r) r) d]> h).
Proof.
  intros Hl Hseries. unfold setitem.
  rewrite (bind_run _ _ _ _ _ (read_run _ _ _ Hl)), Hseries.
  rewrite (bind_run _ _ _ _ _ (lift_run _ _ _ (set_column_map set f d))).
  unfold assign. rewrite decide_True; [done|]. by eapply lookup_lt_Some.
Qed.

Lemma insert_new (h : heap) d d' : <[length h := d']> (h ++ [d]) = h ++ [d'].
Proof. by rewrite insert_app_r_alt, Nat.sub_diag. Qed.

(** The shape shared by [df_size], [fat_content_df] and [store_age_df]: the
    view is copied and the column is assigned on the copy. *)
Lemma copy_setitem_run {A} (h : heap) data (set : A → Row → Row) series
    (f : Row → A) d :
  h !! data = Some d →
  series d = map f d →
  (l ← copy data; setitem l set series;; mret l) h
  = Some (length h, h ++ [map (λ r, set (f r) r) d]).
Proof.
  intros Hd Hseries.
  rewrite (bind_run _ _ _ _ _ (copy_run _ _ _ Hd)).
  rewrite (bind_run _ _ _ _ _
             (setitem_run _ _ set series f d (lookup_new h d) Hseries)).
  by rewrite insert_new.
Qed.

(** Had the column been assigned on the view itself, the view would have
    changed: the store does tell the two apart. *)
Lemma setitem_in_place (h : heap) l d :
  h !! l = Some d →
  ∃ h', setitem l set_Item_Fat_Content
          (λ d, replace fat_content_mapping (getitem Item_Fat_Content d)) h
        = Some ((), h') ∧
        h' !! l = Some (map (λ r, set_Item_Fat_Content
                       (replace_value fat_content_mapping (Item_Fat_Content r)) r) d).
Proof.
  intros Hl. eexists. split.
  - apply (setitem_run h l set_Item_Fat_Content _
             (λ r, replace_value fat_content_mapping (Item_Fat_Content r)) d Hl).
    unfold replace, getitem. by rewrite map_map.
  - apply list_lookup_insert_eq. by eapply lookup_lt_Some.
Qed.

(** ** Fat content *)

Lemma fat_content_df_run (h : heap) data d :
  h !! data = Some d →
  fat_content_df data h
  = Some (length h,
          h ++ [map (λ r, set_Item_Fat_Content
                  (replace_value fat_content_mapping (Item_Fat_Content r)) r) d]).
Proof.
  intros Hd. unfold fat_content_df. apply copy_setitem_run; [done|].
  unfold replace, getitem. by rewrite map_map.
Qed.

Lemma replace_value_fat_content (x : string) :
  replace_value fat_content_mapping x =
  if decide (x = "LF") then "Low Fat"
  else if decide (x = "low fat") then "Low Fat"
  else if decide (x = "reg") then "Regular" else x.
Proof. done. Qed.

Lemma replace_value_normal (x : string) :
  let y := replace_value fat_content_mapping x in
  y ≠ "LF" ∧ y ≠ "low fat" ∧ y ≠ "reg".
Proof.
  cbv zeta. rewrite replace_value_fat_content.
  repeat case_decide; by repeat split.
Qed.

Lemma replace_value_idempotent (x : string) :
  replace_value fat_content_mapping (replace_value fat_content_mapping x)
  = replace_value fat_content_mapping x.
Proof.
  destruct (replace_value_normal x) as (H1 & H2 & H3). cbv zeta in *.
  rewrite (replace_value_fat_content (replace_value _ x)).
  by rewrite !decide_False by done.
Qed.

Lemma filter_fmap_inv {X Y} (f : X → Y) (P : Y → Prop) `{!∀ y, Decision (P y)}
    (l : list X) :
  filter P (f <$> l) = f <$> filter (λ x, P (f x)) l.
Proof.
  induction l as [|x l IH]; [done|].
  cbn [fmap list_fmap]. rewrite !filter_cons, IH. by case_decide.
Qed.

(** Grouping a frame whose rows were rewritten by [f] is grouping the frame
    itself by what [f] makes of each row. *)
Lemma sort_values_map {X Y} (F : X → Y) (leb : X → X → bool) (leb' : Y → Y → bool)
    (l : list X) :
  (∀ a b, leb' (F a) (F b) = leb a b) →
  sort_values leb' (map F l) = map F (sort_values leb l).
Proof.
  intros Hleb. induction l as [|x l IH]; [done|].
  cbn [map sort_values foldr]. fold (sort_values leb' (map F l)).
  fold (sort_values leb l). rewrite IH. generalize (sort_values leb l) as acc.
  induction acc as [|y acc IHacc]; [done|].
  cbn [map insert_sorted]. rewrite Hleb. destruct (leb x y); [done|].
  cbn [map]. by rewrite IHacc.
Qed.

Lemma add_to_group_map {K V W} `{EqDecision K} (F : V → W) (k : K) v
    (gs : list (K * list V)) :
  add_to_group k (F v) (map (λ kg, (kg.1, map F kg.2)) gs)
  = map (λ kg, (kg.1, map F kg.2)) (add_to_group k v gs).
Proof.
  induction gs as [|[k' g] gs IH]; [done|].
  cbn [map add_to_group fst snd]. destruct (decide (k = k')); cbn [map fst snd].
  - by rewrite map_app.
  - by rewrite IH.
Qed.

Lemma groups_map {K V W} `{EqDecision K} (F : V → W) (l : list (K * V)) :
  groups (map (λ kv, (kv.1, F kv.2)) l)
  = map (λ kg, (kg.1, map F kg.2)) (groups l).
Proof.
  induction l as [|kv l IH] using rev_ind; [done|].
  rewrite map_app. cbn [map]. rewrite !groups_snoc, IH. cbn [fst snd].
  apply add_to_group_map.
Qed.

Lemma keyed_map {K V W} (f : V → W) (key : W → option K) (l : list V) :
  keyed key (map f l) = map (λ kv, (kv.1, f kv.2)) (keyed (λ v, key (f v)) l).
Proof.
  induction l as [|v l IH]; [done|].
  cbn [map]. rewrite !keyed_cons, IH. by destruct (key (f v)).
Qed.

Lemma groupby_sum_map {K} `{EqDecision K} (leb : K → K → bool) (f : Row → Row)
    (key : Row → option K) (val : Row → Q) (d : DataFrame) :
  groupby_sum leb key val (map f d)
  = groupby_sum leb (λ r, key (f r)) (λ r, val (f r)) d.
Proof.
  unfold groupby_sum, groupby. rewrite keyed_map, groups_map.
  rewrite (sort_values_map (λ kg, (kg.1, map f kg.2)) (λ a b, leb a.1 b.1)) by done.
  rewrite map_map. apply map_ext. intros [k g]. cbn [fst snd].
  unfold getitem. by rewrite map_map.
Qed.

Lemma groupby_mean_map {K} `{EqDecision K} (leb : K → K → bool) (f : Row → Row)
    (key : Row → option K) (val : Row → Q) (d : DataFrame) :
  groupby_mean leb key val (map f d)
  = groupby_mean leb (λ r, key (f r)) (λ r, val (f r)) d.
Proof.
  unfold groupby_mean, groupby. rewrite keyed_map, groups_map.
  rewrite (sort_values_map (λ kg, (kg.1, map f kg.2)) (λ a b, leb a.1 b.1)) by done.
  rewrite map_map. apply map_ext. intros [k g]. cbn [fst snd].
  unfold getitem. by rewrite map_map.
Qed.

Lemma fat_sales_run (h : heap) data d :
  h !! data = Some d →
  fat_sales data h
  = Some (groupby_sum String.leb
            (λ r, Some (replace_value fat_content_mapping (Item_Fat_Content r)))
            Item_Outlet_Sales d,
          h ++ [map (λ r, set_Item_Fat_Content
                  (replace_value fat_content_mapping (Item_Fat_Content r)) r) d]).
Proof.
  intros Hd. unfold fat_sales.
  rewrite (bind_run _ _ _ _ _ (fat_content_df_run _ _ _ Hd)).
  rewrite (bind_run _ _ _ _ _ (read_run _ _ _ (lookup_new h _))), ret_run.
  by rewrite groupby_sum_map.
Qed.

Lemma tier_sales_run (h : heap) data d :
  h !! data = Some d →
  tier_sales data h
  = Some (groupby_sum String.leb (λ r, Some (Outlet_Location_Type r))
            Item_Outlet_Sales d, h).
Proof.
  intros Hd. unfold tier_sales.
  by rewrite (bind_run _ _ _ _ _ (read_run _ _ _ Hd)).
Qed.

Lemma type_sales_run (h : heap) data d :
  h !! data = Some d →
  type_sales data h
  = Some (groupby_sum String.leb (λ r, Some (Item_Type r)) Item_Outlet_Sales d, h).
Proof.
  intros Hd. unfold type_sales.
  by rewrite (bind_run _ _ _ _ _ (read_run _ _ _ Hd)).
Qed.

(** C4.  The fat-content mapping sends ["LF"] and ["low fat"] to
    ["Low Fat"] and ["reg"] to ["Regular"], keeps every other string, and
    applying it twice is applying it once, on a cell and on a series.  The
    one table of the script grouped by fat content, [fat_sales], is computed
    from a frame whose fat-content column is the view's column with the
    mapping applied: its keys are fixed by the mapping, none is one of the
    three synonyms, each occurs once, and the total under a key is the sum
    of the sales of the rows whose mapped fat content is that key. *)
Theorem fat_content_normalisation (h : heap) data d (x : string) (s : list string) :
  h !! data = Some d →
  let normal := replace_value fat_content_mapping in
  normal "LF" = "Low Fat" ∧ normal "low fat" = "Low Fat" ∧ normal "reg" = "Regular" ∧
  (x ≠ "LF" → x ≠ "low fat" → x ≠ "reg" → normal x = x) ∧
  normal (normal x) = normal x ∧
  replace fat_content_mapping (replace fat_content_mapping s)
    = replace fat_content_mapping s ∧
  ∃ table h' l d',
    fat_sales data h = Some (table, h') ∧
    fat_content_df data h = Some (l, h') ∧ h' !! l = Some d' ∧
    getitem Item_Fat_Content d'
      = replace fat_content_mapping (getitem Item_Fat_Content d) ∧
    table = groupby_sum String.leb (λ r, Some (Item_Fat_Content r))
              Item_Outlet_Sales d' ∧
    NoDup table.*1 ∧
    (∀ k, k ∈ table.*1 → normal k = k ∧ k ≠ "LF" ∧ k ≠ "low fat" ∧ k ≠ "reg") ∧
    (∀ k total, (k, total) ∈ table ↔
       filter (λ r, normal (Item_Fat_Content r) = k) d ≠ [] ∧
       total = sum (getitem Item_Outlet_Sales
                      (filter (λ r, normal (Item_Fat_Content r) = k) d))).
Proof.
  intros Hd normal. subst normal.
  split; [done|]. split; [done|]. split; [done|].
  split. { intros H1 H2 H3. rewrite replace_value_fat_content.
           by rewrite !decide_False by done. }
  split; [apply replace_value_idempotent|].
  split. { unfold replace. rewrite map_map. apply map_ext.
           intros y. apply replace_value_idempotent. }
  set (norm := λ r, set_Item_Fat_Content
                 (replace_value fat_content_mapping (Item_Fat_Content r)) r).
  assert (Hin : ∀ k total,
    (k, total) ∈ groupby_sum String.leb
       (λ r, Some (replace_value fat_content_mapping (Item_Fat_Content r)))
       Item_Outlet_Sales d ↔
    filter (λ r, replace_value fat_content_mapping (Item_Fat_Content r) = k) d ≠ [] ∧
    total = sum (getitem Item_Outlet_Sales
              (filter (λ r, replace_value fat_content_mapping (Item_Fat_Content r) = k) d))).
  { intros k total. rewrite elem_of_groupby_sum.
    assert (Hf : filter (λ r, Some (replace_value fat_content_mapping
                                      (Item_Fat_Content r)) = Some k) d
                 = filter (λ r, replace_value fat_content_mapping
                                  (Item_Fat_Content r) = k) d).
    { apply list_filter_iff. intros r. naive_solver. }
    by rewrite Hf. }
  exists (groupby_sum String.leb
            (λ r, Some (replace_value fat_content_mapping (Item_Fat_Content r)))
            Item_Outlet_Sales d), (h ++ [map norm d]), (length h), (map norm d).
  split; [by apply fat_sales_run|].
  split; [by apply fat_content_df_run|].
  split; [apply lookup_new|].
  split. { unfold getitem, replace. by rewrite !map_map. }
  split. { by rewrite groupby_sum_map. }
  split. { rewrite groupby_sum_keys. apply groupby_NoDup. }
  split; [|exact Hin].
  intros k [[k' total] [Hk Hkt]]%list_elem_of_fmap. cbn in Hk. subst k'.
  apply Hin in Hkt as [Hne _].
  destruct (filter _ d) as [|r g] eqn:Hg; [done|].
  assert (Hr : r ∈ filter (λ r, replace_value fat_content_mapping
                                  (Item_Fat_Content r) = k) d)
    by (rewrite Hg; left).
  apply list_elem_of_filter in Hr as [<- _].
  split; [apply replace_value_idempotent|apply replace_value_normal].
Qed.

Lemma fat_content_normalisation_witness :
  [sample] !! 0%nat = Some sample ∧
  let normal := replace_value fat_content_mapping in
  normal "LF" = "Low Fat" ∧ normal "low fat" = "Low Fat" ∧ normal "reg" = "Regular" ∧
  ("Low Fat" ≠ "LF" → "Low Fat" ≠ "low fat" → "Low Fat" ≠ "reg" →
   normal "Low Fat" = "Low Fat") ∧
  normal (normal "Low Fat") = normal "Low Fat" ∧
  replace fat_content_mapping (replace fat_content_mapping ["LF"; "reg"; "Regular"])
    = replace fat_content_mapping ["LF"; "reg"; "Regular"] ∧
  ∃ table h' l d',
    fat_sales 0%nat [sample] = Some (table, h') ∧
    fat_content_df 0%nat [sample] = Some (l, h') ∧ h' !! l = Some d' ∧
    getitem Item_Fat_Content d'
      = replace fat_content_mapping (getitem Item_Fat_Content sample) ∧
    table = groupby_sum String.leb (λ r, Some (Item_Fat_Content r))
              Item_Outlet_Sales d' ∧
    NoDup table.*1 ∧
    (∀ k, k ∈ table.*1 → normal k = k ∧ k ≠ "LF" ∧ k ≠ "low fat" ∧ k ≠ "reg") ∧
    (∀ k total, (k, total) ∈ table ↔
       filter (λ r, normal (Item_Fat_Content r) = k) sample ≠ [] ∧
       total = sum (getitem Item_Outlet_Sales
                      (filter (λ r, normal (Item_Fat_Content r) = k) sample))).
Proof.
  split; [reflexivity|].
  apply (fat_content_normalisation [sample] 0%nat sample "Low Fat"
           ["LF"; "reg"; "Regular"]).
  reflexivity.
Defined.

(** C10.  Computing the fat-content totals changes no object that existed
    before: the view still holds its rows, with the fat content as loaded,
    and the tables the script computes afterwards from the view are what
    they are without the fat-content step.  The mapped column lives in the
    one new object, the copy. *)
Theorem fat_sales_frame (h : heap) data d :
  h !! data = Some d →
  ∃ table h',
    fat_sales data h = Some (table, h') ∧
    h' !! data = Some d ∧
    (∀ l x, h !! l = Some x → h' !! l = Some x) ∧
    length h' = S (length h) ∧
    (getitem Item_Fat_Content <$> h' !! data) = Some (getitem Item_Fat_Content d) ∧
    (fst <$> tier_sales data h') = (fst <$> tier_sales data h) ∧
    (fst <$> type_sales data h') = (fst <$> type_sales data h) ∧
    (fst <$> missing_data data h') = (fst <$> missing_data data h) ∧
    (∀ A (f : DataFrame → A),
       (d ← read data; mret (f d)) h' = Some (f d, h')).
Proof.
  intros Hd. eexists _, _. split; [by apply fat_sales_run|].
  assert (Hd' : ∀ x, (h ++ [x]) !! data = Some d) by (intros; by apply lookup_old).
  split; [apply Hd'|]. split; [intros l x Hl; by apply lookup_old|].
  split; [rewrite length_app; cbn; lia|].
  split; [by rewrite Hd'|].
  split; [by rewrite (tier_sales_run _ _ _ (Hd' _)), (tier_sales_run _ _ _ Hd)|].
  split; [by rewrite (type_sales_run _ _ _ (Hd' _)), (type_sales_run _ _ _ Hd)|].
  split.
  { unfold missing_data.
    by rewrite (bind_run _ _ _ _ _ (read_run _ _ _ (Hd' _))),
               (bind_run _ _ _ _ _ (read_run _ _ _ Hd)). }
  intros A f. by rewrite (bind_run _ _ _ _ _ (read_run _ _ _ (Hd' _))).
Qed.

Lemma fat_sales_frame_witness :
  [sample] !! 0%nat = Some sample ∧
  ∃ table h',
    fat_sales 0%nat [sample] = Some (table, h') ∧
    h' !! 0%nat = Some sample ∧
    (∀ l x, [sample] !! l = Some x → h' !! l = Some x) ∧
    length h' = S (length [sample]) ∧
    (getitem Item_Fat_Content <$> h' !! 0%nat)
      = Some (getitem Item_Fat_Content sample) ∧
    (fst <$> tier_sales 0%nat h') = (fst <$> tier_sales 0%nat [sample]) ∧
    (fst <$> type_sales 0%nat h') = (fst <$> type_sales 0%nat [sample]) ∧
    (fst <$> missing_data 0%nat h') = (fst <$> missing_data 0%nat [sample]) ∧
    (∀ A (f : DataFrame → A),
       (d ← read 0%nat; mret (f d)) h' = Some (f sample, h')).
Proof.
  split; [reflexivity|].
  apply (fat_sales_frame [sample] 0%nat sample). reflexivity.
Defined.

(** ** Total sales by product type *)

Lemma groupby_sum_nil_iff {K} `{EqDecision K} (leb : K → K → bool) (key : Row → K)
    (val : Row → Q) (d : DataFrame) :
  groupby_sum leb (λ r, Some (key r)) val d = [] ↔ d = [].
Proof.
  split; [|by intros ->].
  destruct d as [|r d]; [done|]. intros Hnil. exfalso.
  assert (Hin : (key r, sum (getitem val
             (filter (λ r', Some (key r') = Some (key r)) (r :: d))))
           ∈ groupby_sum leb (λ r, Some (key r)) val (r :: d)).
  { apply elem_of_groupby_sum. split; [|done].
    by rewrite filter_cons_True. }
  rewrite Hnil in Hin. by apply elem_of_nil in Hin.
Qed.

Lemma sort_values_descending {X} (l : list (X * Q)) :
  StronglySorted (λ a b, (b.2 <= a.2)%Q) (sort_values (λ a b, Qle_bool b.2 a.2) l).
Proof.
  apply sort_values_sorted.
  - intros a b. apply Qle_bool_iff.
  - intros a b Hab. apply Qlt_le_weak, Qnot_le_lt.
    intros Hle. apply Qle_bool_iff in Hle. congruence.
  - intros a b c Hab Hbc. by eapply Qle_trans.
Qed.

Lemma type_sales_total_run (h : heap) data d :
  h !! data = Some d →
  type_sales_total data h
  = Some (match d with
          | [] => No_data
          | _ => Shown (sort_values (λ a b, Qle_bool b.2 a.2)
                   (groupby_sum String.leb (λ r, Some (Item_Type r))
                      Item_Outlet_Sales d))
          end, h).
Proof.
  intros Hd. unfold type_sales_total.
  rewrite (bind_run _ _ _ _ _ (read_run _ _ _ Hd)), ret_run. do 2 f_equal.
  destruct d as [|r d]; [done|].
  rewrite decide_True; [done|].
  destruct (groupby_sum _ _ _ (r :: d)) eqn:E; [|cbn; lia].
  by apply groupby_sum_nil_iff in E.
Qed.

(** C7.  The table of total sales per product type that the script hands to
    the bar chart is in descending order of the totals: of any two of its
    rows, the earlier has the total that is at least the later's.  It holds
    the rows of the group-sum (one per product type present in the view,
    with the sum of that type's sales), only reordered.  No table is handed
    over only when the view has no row. *)
Theorem type_sales_total_descending (h : heap) data d :
  h !! data = Some d →
  ∃ handed,
    type_sales_total data h = Some (handed, h) ∧
    match handed with
    | Shown table =>
        StronglySorted (λ a b, (b.2 <= a.2)%Q) table ∧
        table ≡ₚ groupby_sum String.leb (λ r, Some (Item_Type r))
                   Item_Outlet_Sales d ∧
        NoDup table.*1 ∧
        (∀ k total, (k, total) ∈ table ↔
           filter (λ r, Item_Type r = k) d ≠ [] ∧
           total = sum (getitem Item_Outlet_Sales
                          (filter (λ r, Item_Type r = k) d)))
    | No_data => d = []
    end.
Proof.
  intros Hd. eexists. split; [by apply type_sales_total_run|].
  destruct d as [|r0 d0]; [done|]. set (d := r0 :: d0) in *.
  split; [apply sort_values_descending|].
  split; [apply sort_values_perm|].
  split.
  { rewrite sort_values_perm, groupby_sum_keys. apply groupby_NoDup. }
  intros k total. rewrite sort_values_elem_of, elem_of_groupby_sum.
  assert (Hf : filter (λ r, Some (Item_Type r) = Some k) d
               = filter (λ r, Item_Type r = k) d).
  { apply list_filter_iff. intros r. naive_solver. }
  by rewrite Hf.
Qed.

Lemma type_sales_total_descending_witness :
  [sample] !! 0%nat = Some sample ∧
  ∃ handed,
    type_sales_total 0%nat [sample] = Some (handed, [sample]) ∧
    match handed with
    | Shown table =>
        StronglySorted (λ a b, (b.2 <= a.2)%Q) table ∧
        table ≡ₚ groupby_sum String.leb (λ r, Some (Item_Type r))
                   Item_Outlet_Sales sample ∧
        NoDup table.*1 ∧
        (∀ k total, (k, total) ∈ table ↔
           filter (λ r, Item_Type r = k) sample ≠ [] ∧
           total = sum (getitem Item_Outlet_Sales
                          (filter (λ r, Item_Type r = k) sample)))
    | No_data => sample = []
    end.
Proof.
  split; [reflexivity|].
  apply (type_sales_total_descending [sample] 0%nat sample). reflexivity.
Defined.

(** ** Store age *)

Lemma store_age_df_run (h : heap) data d :
  h !! data = Some d →
  store_age_df data h
  = Some (length h,
          h ++ [map (λ r, set_Store_Age
                  (int64 (current_year - Outlet_Establishment_Year r)) r) d]).
Proof.
  intros Hd. unfold store_age_df. apply copy_setitem_run; [done|].
  unfold getitem. by rewrite map_map.
Qed.

Lemma sort_values_ascending {X} (l : list (Z * X)) :
  StronglySorted (λ a b, a.1 ≤ b.1) (sort_values (λ a b, a.1 <=? b.1) l).
Proof.
  apply sort_values_sorted.
  - intros a b. apply Z.leb_le.
  - intros a b Hab%Z.leb_gt. lia.
  - intros a b c. lia.
Qed.

Lemma age_sales_run (h : heap) data d :
  h !! data = Some d →
  age_sales data h
  = Some (sort_values (λ a b, a.1 <=? b.1)
            (groupby_mean Z.leb
               (λ r, Some (int64 (current_year - Outlet_Establishment_Year r)))
               Item_Outlet_Sales d),
          h ++ [map (λ r, set_Store_Age
                  (int64 (current_year - Outlet_Establishment_Year r)) r) d]).
Proof.
  intros Hd. unfold age_sales.
  rewrite (bind_run _ _ _ _ _ (store_age_df_run _ _ _ Hd)).
  rewrite (bind_run _ _ _ _ _ (read_run _ _ _ (lookup_new h _))), ret_run.
  by rewrite groupby_mean_map.
Qed.

Lemma advanced_analytics_empty (h : heap) data :
  h !! data = Some [] → advanced_analytics data h = Some (No_data, h).
Proof.
  intros Hd. unfold advanced_analytics.
  by rewrite (bind_run _ _ _ _ _ (read_run _ _ _ Hd)).
Qed.

Lemma mean_nonempty (s : list Q) :
  s ≠ [] → mean s = Some (sum s / inject_Z (Z.of_nat (length s)))%Q.
Proof. by destruct s. Qed.

(** Within the range of a 64-bit cell nothing wraps. *)
Lemma int64_small (z : Z) : - 2 ^ 63 ≤ z < 2 ^ 63 → int64 z = z.
Proof. intros Hz. unfold int64. rewrite Z.mod_small; lia. Qed.

(** The subtraction stays within a 64-bit cell for every year of such a
    cell but the 2025 earliest ones. *)
Lemma store_age_no_wrap (year : Z) :
  2026 - 2 ^ 63 ≤ year < 2 ^ 63 →
  int64 (current_year - year) = current_year - year.
Proof. intros Hy. apply int64_small. unfold current_year. lia. Qed.

Lemma filter_ext_in {X} (P Q : X → Prop) `{!∀ x, Decision (P x)}
    `{!∀ x, Decision (Q x)} (l : list X) :
  (∀ x, x ∈ l → P x ↔ Q x) → filter P l = filter Q l.
Proof.
  induction l as [|x l IH]; intros HPQ; [done|].
  rewrite !filter_cons, IH by (intros y Hy; apply HPQ; by right).
  destruct (HPQ x ltac:(left)) as [H1 H2].
  destruct (decide (P x)), (decide (Q x)); tauto.
Qed.




(** ** Store size distribution *)

Section value_counts.
Context {A : Type} `{EqDecision A}.
Implicit Types s : list (option A).

Lemma elem_of_value_counts s x n :
  (x, n) ∈ value_counts s ↔
  n = length (filter (λ c, c = Some x) s) ∧ (0 < n)%nat.
Proof.
  unfold value_counts. rewrite sort_values_elem_of, list_elem_of_fmap. split.
  - intros ([k g] & [= -> ->] & [Hg Hne]%elem_of_groups). cbn [fst snd].
    rewrite (keyed_group id) in Hg. subst g. split; [done|].
    destruct (filter _ s); [done|cbn; lia].
  - intros [-> Hpos]. exists (x, filter (λ c, c = Some x) s). split; [done|].
    apply elem_of_groups. rewrite (keyed_group id). split; [done|].
    intros Hnil. unfold id in Hnil. rewrite Hnil in Hpos. cbn in Hpos. lia.
Qed.

Lemma value_counts_NoDup s : NoDup (value_counts s).*1.
Proof.
  unfold value_counts. rewrite sort_values_perm.
  replace ((map (λ kg, (kg.1, length kg.2)) (groups (keyed id s))).*1)
    with ((groups (keyed id s)).*1); [apply groups_NoDup|].
  generalize (groups (keyed id s)). intros gs.
  induction gs as [|[k g] gs IH]; [done|]. cbn. by rewrite IH.
Qed.

Lemma value_counts_total s :
  sum_list (value_counts s).*2 = length (keyed id s).
Proof.
  unfold value_counts. rewrite sort_values_perm, <- groups_total.
  generalize (groups (keyed id s)). intros gs.
  induction gs as [|[k g] gs IH]; [done|]. cbn. by rewrite IH.
Qed.

Lemma keyed_id_length s :
  (∀ c, c ∈ s → is_Some c) → length (keyed id s) = length s.
Proof.
  induction s as [|c s IH]; intros Hs; [done|].
  rewrite keyed_cons. destruct (Hs c) as [x Hx]; [left|]. unfold id at 1.
  rewrite Hx. cbn [length]. rewrite IH; [done|]. intros c' Hc'. apply Hs. by right.
Qed.
End value_counts.

Lemma filter_length_mono {X} (P Q : X → Prop) `{!∀ x, Decision (P x)}
    `{!∀ x, Decision (Q x)} (l : list X) :
  (∀ x, P x → Q x) → (length (filter P l) ≤ length (filter Q l))%nat.
Proof.
  intros HPQ. induction l as [|x l IH]; [done|].
  rewrite !filter_cons. destruct (decide (P x)) as [HP|HP].
  - rewrite decide_True by auto. cbn. lia.
  - destruct (decide (Q x)); cbn; lia.
Qed.

(** The size cell of a row as the distribution sees it. *)
Lemma fillna_default (v : string) (s : list (option string)) :
  fillna v s = map (λ c, Some (default v c)) s.
Proof. unfold fillna. apply map_ext. by intros [x|]. Qed.

Lemma df_size_run (h : heap) data d :
  h !! data = Some d →
  df_size data h
  = Some (length h,
          h ++ [map (λ r, set_Outlet_Size
                  (Some (default "Unknown" (Outlet_Size r))) r) d]).
Proof.
  intros Hd. unfold df_size. apply copy_setitem_run; [done|].
  rewrite fillna_default. unfold getitem. by rewrite map_map.
Qed.

Lemma size_counts_run (h : heap) data d :
  h !! data = Some d →
  size_counts data h
  = Some (value_counts (map (λ r, Some (default "Unknown" (Outlet_Size r))) d),
          h ++ [map (λ r, set_Outlet_Size
                  (Some (default "Unknown" (Outlet_Size r))) r) d]).
Proof.
  intros Hd. unfold size_counts.
  rewrite (bind_run _ _ _ _ _ (df_size_run _ _ _ Hd)).
  rewrite (bind_run _ _ _ _ _ (read_run _ _ _ (lookup_new h _))), ret_run.
  unfold getitem. by rewrite map_map.
Qed.

(** C9.  The store-size distribution counts every row of the view under
    exactly one category, the row's size or ["Unknown"] when the size is
    missing: each category present has one entry, with the number of rows of
    that category, and the entries add up to the number of rows of the
    view.  The substitution is made on a copy: the view and every earlier
    object are as before, and the missing-values analysis, run before or
    after, counts the rows whose size is missing as missing. *)
Theorem size_counts_unknown (h : heap) data d :
  h !! data = Some d →
  ∃ counts h',
    size_counts data h = Some (counts, h') ∧
    NoDup counts.*1 ∧
    (∀ c n, (c, n) ∈ counts ↔
       n = length (filter (λ r, default "Unknown" (Outlet_Size r) = c) d) ∧
       (0 < n)%nat) ∧
    sum_list counts.*2 = length d ∧
    (null_rows Outlet_Size d ≠ [] →
       ∃ n, ("Unknown", n) ∈ counts ∧
            (length (null_rows Outlet_Size d) ≤ n)%nat) ∧
    h' !! data = Some d ∧
    (∀ l x, h !! l = Some x → h' !! l = Some x) ∧
    ∃ weight size,
      missing_data data h = Some ([weight; size], h) ∧
      missing_data data h' = Some ([weight; size], h') ∧
      Column size = "Outlet_Size" ∧
      Missing_Values size = Z.of_nat (length (null_rows Outlet_Size d)).
Proof.
  intros Hd. eexists _, _. split; [by apply size_counts_run|].
  assert (Hcount : ∀ c,
    length (filter (λ cell, cell = Some c)
              (map (λ r, Some (default "Unknown" (Outlet_Size r))) d))
    = length (filter (λ r, default "Unknown" (Outlet_Size r) = c) d)).
  { intros c.
    rewrite (filter_fmap_inv (λ r, Some (default "Unknown" (Outlet_Size r)))).
    rewrite length_fmap. f_equal. apply list_filter_iff. intros r. naive_solver. }
  assert (Hmem : ∀ c n,
    (c, n) ∈ value_counts (map (λ r, Some (default "Unknown" (Outlet_Size r))) d) ↔
    n = length (filter (λ r, default "Unknown" (Outlet_Size r) = c) d) ∧ (0 < n)%nat).
  { intros c n. by rewrite elem_of_value_counts, Hcount. }
  split; [apply value_counts_NoDup|]. split; [exact Hmem|].
  split.
  { rewrite value_counts_total, keyed_id_length; [by rewrite length_map|].
    intros c (r & -> & _)%list_elem_of_fmap. by eexists. }
  split.
  { intros Hnull.
    assert (Hle : (length (null_rows Outlet_Size d)
                   ≤ length (filter (λ r, default "Unknown" (Outlet_Size r) = "Unknown") d))%nat).
    { apply filter_length_mono. by intros r ->. }
    eexists. split; [|exact Hle]. apply Hmem. split; [done|].
    destruct (null_rows Outlet_Size d); [done|]. cbn in Hle. lia. }
  split; [by apply lookup_old|]. split; [intros l x Hl; by apply lookup_old|].
  eexists _, _. split; [by apply missing_data_run|].
  split; [apply missing_data_run; by apply lookup_old|].
  split; [done|]. apply sum_bool_isnull.
Qed.

Lemma size_counts_unknown_witness :
  [sample] !! 0%nat = Some sample ∧
  ∃ counts h',
    size_counts 0%nat [sample] = Some (counts, h') ∧
    NoDup counts.*1 ∧
    (∀ c n, (c, n) ∈ counts ↔
       n = length (filter (λ r, default "Unknown" (Outlet_Size r) = c) sample) ∧
       (0 < n)%nat) ∧
    sum_list counts.*2 = length sample ∧
    (null_rows Outlet_Size sample ≠ [] →
       ∃ n, ("Unknown", n) ∈ counts ∧
            (length (null_rows Outlet_Size sample) ≤ n)%nat) ∧
    h' !! 0%nat = Some sample ∧
    (∀ l x, [sample] !! l = Some x → h' !! l = Some x) ∧
    ∃ weight size,
      missing_data 0%nat [sample] = Some ([weight; size], [sample]) ∧
      missing_data 0%nat h' = Some ([weight; size], h') ∧
      Column size = "Outlet_Size" ∧
      Missing_Values size = Z.of_nat (length (null_rows Outlet_Size sample)).
Proof.
  split; [reflexivity|].
  apply (size_counts_unknown [sample] 0%nat sample). reflexivity.
Defined.

(** ** The view without rows *)

Lemma key_metrics_overview_run (h : heap) data d :
  h !! data = Some d →
  ∃ m, key_metrics_overview data h = Some (m, h) ∧
    total_observations m = length d ∧
    product_types_count m = nunique (getitem Item_Type d) ∧
    highest_mrp m
      = (if decide (0 < length d)%nat then Shown (max (getitem Item_MRP d))
         else No_data) ∧
    establishment_years m
      = (if decide (0 < length d)%nat
         then Shown (min_int (getitem Outlet_Establishment_Year d),
                     max_int (getitem Outlet_Establishment_Year d))
         else No_data) ∧
    avg_store_sales m
      = (if decide (0 < length d)%nat then Shown (mean (getitem Item_Outlet_Sales d))
         else No_data) ∧
    total_store_sales m
      = (if decide (0 < length d)%nat then Shown (sum (getitem Item_Outlet_Sales d))
         else No_data) ∧
    avg_mrp m
      = (if decide (0 < length d)%nat then Shown (mean (getitem Item_MRP d))
         else No_data).
Proof.
  intros Hd. eexists. split.
  { unfold key_metrics_overview.
    by rewrite (bind_run _ _ _ _ _ (read_run _ _ _ Hd)). }
  done.
Qed.

Lemma visualizations_empty (h : heap) data :
  h !! data = Some [] → visualizations data h = Some (No_data, h).
Proof.
  intros Hd. unfold visualizations.
  by rewrite (bind_run _ _ _ _ _ (read_run _ _ _ Hd)).
Qed.

(** C5.  A view without rows is a state the script runs through without
    error.  On it the row count and the number of distinct product types
    are 0, a sum is 0 (whatever the column, and so the number of missing
    cells), every group-by table and every value count is empty, and the
    maximum, minimum and mean are the no-value answer, which the script
    never asks for: it checks [len(data) > 0] first and shows "No data", as
    it does for the charts and the store-age trend. *)
Theorem empty_view_is_valid (h : heap) data :
  h !! data = Some [] →
  (∀ val : Row → Q, sum (getitem val []) = 0%Q) ∧
  (∀ A (col : Row → option A), sum_bool (isnull (getitem col [])) = 0) ∧
  (∀ `{EqDecision K} leb (key : Row → option K) val,
     groupby leb key [] = [] ∧ groupby_sum leb key val [] = [] ∧
     groupby_mean leb key val [] = []) ∧
  (∀ `{EqDecision A} (col : Row → option A), value_counts (getitem col []) = []) ∧
  (∀ val : Row → Q, max (getitem val []) = None ∧ mean (getitem val []) = None) ∧
  (∀ val : Row → Z, max_int (getitem val []) = None ∧ min_int (getitem val []) = None) ∧
  (∃ m, key_metrics_overview data h = Some (m, h) ∧
     total_observations m = 0%nat ∧ product_types_count m = 0%nat ∧
     highest_mrp m = No_data ∧ establishment_years m = No_data ∧
     avg_store_sales m = No_data ∧ total_store_sales m = No_data ∧
     avg_mrp m = No_data) ∧
  (∃ weight size, missing_data data h = Some ([weight; size], h) ∧
     Missing_Values weight = 0 ∧ Missing_Values size = 0 ∧
     (Percentage weight == 0)%Q ∧ (Percentage size == 0)%Q) ∧
  visualizations data h = Some (No_data, h) ∧
  advanced_analytics data h = Some (No_data, h).
Proof.
  intros Hd.
  split; [done|]. split; [done|]. split; [done|]. split; [done|].
  split; [done|]. split; [done|].
  split.
  { destruct (key_metrics_overview_run h data [] Hd)
      as (m & Hrun & H1 & H2 & H3 & H4 & H5 & H6 & H7).
    exists m. by repeat (split; [done|]). }
  split.
  { eexists _, _. split; [by apply missing_data_run|]. done. }
  split; [by apply visualizations_empty|].
  by apply advanced_analytics_empty.
Qed.

Lemma empty_view_is_valid_witness :
  [sample; []] !! 1%nat = Some [] ∧
  (∀ val : Row → Q, sum (getitem val []) = 0%Q) ∧
  (∀ A (col : Row → option A), sum_bool (isnull (getitem col [])) = 0) ∧
  (∀ `{EqDecision K} leb (key : Row → option K) val,
     groupby leb key [] = [] ∧ groupby_sum leb key val [] = [] ∧
     groupby_mean leb key val [] = []) ∧
  (∀ `{EqDecision A} (col : Row → option A), value_counts (getitem col []) = []) ∧
  (∀ val : Row → Q, max (getitem val []) = None ∧ mean (getitem val []) = None) ∧
  (∀ val : Row → Z, max_int (getitem val []) = None ∧ min_int (getitem val []) = None) ∧
  (∃ m, key_metrics_overview 1%nat [sample; []] = Some (m, [sample; []]) ∧
     total_observations m = 0%nat ∧ product_types_count m = 0%nat ∧
     highest_mrp m = No_data ∧ establishment_years m = No_data ∧
     avg_store_sales m = No_data ∧ total_store_sales m = No_data ∧
     avg_mrp m = No_data) ∧
  (∃ weight size,
     missing_data 1%nat [sample; []] = Some ([weight; size], [sample; []]) ∧
     Missing_Values weight = 0 ∧ Missing_Values size = 0 ∧
     (Percentage weight == 0)%Q ∧ (Percentage size == 0)%Q) ∧
  visualizations 1%nat [sample; []] = Some (No_data, [sample; []]) ∧
  advanced_analytics 1%nat [sample; []] = Some (No_data, [sample; []]).
Proof.
  split; [reflexivity|].
  apply (empty_view_is_valid [sample; []] 1%nat). reflexivity.
Defined.

(** ** The whole script *)

Lemma tier_counts_run (h : heap) data d :
  h !! data = Some d →
  tier_counts data h
  = Some (value_counts (getitem (λ r, Some (Outlet_Location_Type r)) d), h).
Proof.
  intros Hd. unfold tier_counts.
  by rewrite (bind_run _ _ _ _ _ (read_run _ _ _ Hd)).
Qed.

Lemma avg_sales_by_type_run (h : heap) data d :
  h !! data = Some d →
  avg_sales_by_type data h
  = Some (groupby_mean String.leb (λ r, Some (Outlet_Type r)) Item_Outlet_Sales d, h).
Proof.
  intros Hd. unfold avg_sales_by_type.
  by rewrite (bind_run _ _ _ _ _ (read_run _ _ _ Hd)).
Qed.

(** The charts block makes two objects, the copies of the size and of the
    fat-content steps, and changes none. *)
Lemma visualizations_run (h : heap) data d :
  h !! data = Some d →
  ∃ v h', visualizations data h = Some (v, h') ∧
    h `prefix_of` h' ∧ h' !! data = Some d ∧
    match v with
    | No_data => d = [] ∧ h' = h
    | Shown _ => d ≠ []
    end.
Proof.
  intros Hd. unfold visualizations.
  rewrite (bind_run _ _ _ _ _ (read_run _ _ _ Hd)).
  destruct d as [|r0 d0]; [by eexists _, _|]. set (d := r0 :: d0) in *.
  rewrite decide_False by done.
  rewrite (bind_run _ _ _ _ _ (size_counts_run _ _ _ Hd)).
  set (h1 := h ++ [_]).
  assert (Hd1 : h1 !! data = Some d) by (by apply lookup_old).
  rewrite (bind_run _ _ _ _ _ (tier_counts_run _ _ _ Hd1)).
  rewrite (bind_run _ _ _ _ _ (avg_sales_by_type_run _ _ _ Hd1)).
  rewrite (bind_run _ _ _ _ _ (fat_sales_run _ _ _ Hd1)).
  set (h2 := h1 ++ [_]).
  assert (Hd2 : h2 !! data = Some d) by (by apply lookup_old).
  rewrite (bind_run _ _ _ _ _ (tier_sales_run _ _ _ Hd2)).
  rewrite (bind_run _ _ _ _ _ (type_sales_total_run _ _ _ Hd2)).
  rewrite (bind_run _ _ _ _ _ (type_sales_run _ _ _ Hd2)).
  eexists _, _. split; [reflexivity|].
  split; [trans h1; by apply prefix_app_r|]. by split.
Qed.

Lemma advanced_analytics_run (h : heap) data d :
  h !! data = Some d →
  ∃ a h', advanced_analytics data h = Some (a, h') ∧
    h `prefix_of` h' ∧ h' !! data = Some d.
Proof.
  intros Hd. unfold advanced_analytics.
  rewrite (bind_run _ _ _ _ _ (read_run _ _ _ Hd)).
  destruct d as [|r0 d0]; [by eexists _, _|]. set (d := r0 :: d0) in *.
  rewrite decide_True by (cbn; lia).
  rewrite (bind_run _ _ _ _ _ (age_sales_run _ _ _ Hd)).
  set (h1 := h ++ [_]).
  assert (Hd1 : h1 !! data = Some d) by (by apply lookup_old).
  unfold bubble_data.
  rewrite (bind_run _ _ _ _ _ (bind_run _ _ _ _ _ (read_run _ _ _ Hd1))).
  eexists _, _. split; [reflexivity|]. split; [|done]. by apply prefix_app_r.
Qed.

(** Whatever the table and the selections, the script runs to its end; the
    view it worked on holds, at the end, the rows the filter selected, and
    the loaded table holds its rows. *)
Lemma run_total (h : heap) df rows p t s :
  h !! df = Some rows →
  ∃ out h', run df p t s h = Some (out, h') ∧
    h' !! view out = Some (filter (in_selection p t s) rows) ∧
    h' !! df = Some rows.
Proof.
  intros Hdf. unfold run.
  destruct (filtered_df_run h df rows p t s Hdf)
    as (data & h1 & Hrun1 & Hpre1 & _ & Hdata).
  rewrite (bind_run _ _ _ _ _ Hrun1).
  destruct (key_metrics_overview_run h1 data _ Hdata) as (m & Hrun2 & _).
  rewrite (bind_run _ _ _ _ _ Hrun2).
  rewrite (bind_run _ _ _ _ _ (missing_data_run _ _ _ Hdata)).
  destruct (visualizations_run h1 data _ Hdata) as (v & h2 & Hrun3 & Hpre2 & Hdata2 & _).
  rewrite (bind_run _ _ _ _ _ Hrun3).
  destruct (advanced_analytics_run h2 data _ Hdata2) as (a & h3 & Hrun4 & Hpre3 & Hdata3).
  rewrite (bind_run _ _ _ _ _ Hrun4).
  eexists _, _. split; [reflexivity|]. split; [done|].
  eapply prefix_lookup_Some; [|exact Hpre3].
  eapply prefix_lookup_Some; [|exact Hpre2].
  by eapply prefix_lookup_Some.
Qed.

(** ** The scenario of the specification

    On the three-row table: narrowing to ["Dairy"] keeps the two dairy rows,
    a category spelled in another case or absent from the table keeps none,
    the sales add up to 150 for ["Dairy"] and 200 for ["Snacks"], and two
    rows are in ["Tier 1"], one in ["Tier 2"]. *)

Example scenario_filter_dairy :
  length <$> result (filtered_df 0%nat "Dairy" "All" "All") [sample] = Some 2%nat.
Proof. reflexivity. Qed.

Example scenario_filter_case_sensitive :
  result (filtered_df 0%nat "dairy" "All" "All") [sample] = Some [].
Proof. reflexivity. Qed.

Example scenario_filter_absent :
  result (filtered_df 0%nat "Seafood" "All" "All") [sample] = Some [] ∧
  ∃ out h', run 0%nat "Seafood" "All" "All" [sample] = Some (out, h') ∧
    total_observations (metrics out) = 0%nat ∧
    avg_store_sales (metrics out) = No_data ∧
    visuals out = No_data ∧ advanced out = No_data.
Proof. split; [reflexivity|]. eexists _, _. by split; [vm_compute|]. Qed.

Example scenario_group_sum :
  fst <$> type_sales 0%nat [sample] = Some [("Dairy", 150%Q); ("Snacks", 200%Q)].
Proof. reflexivity. Qed.

Example scenario_group_count :
  fst <$> tier_counts 0%nat [sample] = Some [("Tier 1", 2%nat); ("Tier 2", 1%nat)].
Proof. reflexivity. Qed.

Example scenario_sorted_totals :
  fst <$> type_sales_total 0%nat [sample]
  = Some (Shown [("Snacks", 200%Q); ("Dairy", 150%Q)]).
Proof. reflexivity. Qed.

Example scenario_fat_sales :
  fst <$> fat_sales 0%nat [sample] = Some [("Low Fat", 150%Q); ("Regular", 200%Q)].
Proof. reflexivity. Qed.

Example scenario_size_counts :
  fst <$> size_counts 0%nat [sample] = Some [("Unknown", 2%nat); ("Medium", 1%nat)].
Proof. reflexivity. Qed.

(** * Further properties of the script *)

(** ** The order of strings *)

Lemma string_leb_trans (a b c : string) :
  String.leb a b = true → String.leb b c = true → String.leb a c = true.
Proof.
  unfold String.leb. revert b c.
  induction a as [|x a IH]; intros [|y b] [|z c]; cbn; try done.
  unfold Ascii.compare.
  destruct (N.compare_spec (N_of_ascii x) (N_of_ascii y)) as [Hxy|Hxy|Hxy];
    destruct (N.compare_spec (N_of_ascii y) (N_of_ascii z)) as [Hyz|Hyz|Hyz];
    destruct (N.compare_spec (N_of_ascii x) (N_of_ascii z)) as [Hxz|Hxz|Hxz];
    try done; try lia.
  apply IH.
Qed.

Lemma string_leb_false (a b : string) : String.leb a b = false → String.leb b a = true.
Proof. intros Hab. destruct (String.leb_total a b) as [H|H]; congruence. Qed.

(** ** Distinct values *)

Section unique.
Context {A : Type} `{EqDecision A}.
Implicit Types s : list A.

Lemma unique_snoc s x :
  unique (s ++ [x]) = if decide (x ∈ unique s) then unique s else unique s ++ [x].
Proof. unfold unique. by rewrite fold_left_app. Qed.

Lemma elem_of_unique s x : x ∈ unique s ↔ x ∈ s.
Proof.
  induction s as [|y s IH] using rev_ind; [done|].
  rewrite unique_snoc, elem_of_app, list_elem_of_singleton.
  destruct (decide (y ∈ unique s)) as [Hy|Hy].
  - rewrite IH. split; [by left|]. intros [?| ->]; [done|]. by apply IH.
  - by rewrite elem_of_app, list_elem_of_singleton, IH.
Qed.

Lemma unique_NoDup s : NoDup (unique s).
Proof.
  induction s as [|y s IH] using rev_ind; [constructor|].
  rewrite unique_snoc. destruct (decide (y ∈ unique s)) as [Hy|Hy]; [done|].
  apply NoDup_app. split; [done|]. split; [|apply NoDup_singleton].
  by intros x Hx ->%list_elem_of_singleton.
Qed.
End unique.

(** ** The sidebar *)

Lemma sort_values_strings (l : list string) :
  StronglySorted (λ a b, String.leb a b = true) (sort_values String.leb l).
Proof.
  apply sort_values_sorted; [done|apply string_leb_false|apply string_leb_trans].
Qed.

Lemma StronglySorted_NoDup_strict {X} (R : X → X → Prop) (l : list X) :
  StronglySorted R l → NoDup l → StronglySorted (λ a b, R a b ∧ a ≠ b) l.
Proof.
  induction 1 as [|x l Hl IH Hx]; intros Hnd; [constructor|].
  apply NoDup_cons in Hnd as [Hxl Hnd]. constructor; [by apply IH|].
  apply Forall_forall. intros y Hy. split.
  - by eapply Forall_forall in Hx.
  - intros ->. by apply Hxl, list_elem_of_In.
Qed.

(** X1.  The options of a sidebar filter are ['All'] followed by the values
    of the column: each value that occurs in the table is listed, once, in
    strictly ascending order, and nothing else is listed. *)
Theorem options_listing (col : Row → string) (d : DataFrame) :
  ∃ values,
    options col d = "All" :: values ∧
    StronglySorted (λ a b, String.leb a b = true ∧ a ≠ b) values ∧
    NoDup values ∧
    (∀ v, v ∈ values ↔ ∃ r, r ∈ d ∧ col r = v) ∧
    (length values ≤ length d)%nat.
Proof.
  exists (sort_values String.leb (unique (getitem col d))).
  assert (Hnd : NoDup (sort_values String.leb (unique (getitem col d)))).
  { rewrite sort_values_perm. apply unique_NoDup. }
  assert (Hin : ∀ v, v ∈ sort_values String.leb (unique (getitem col d))
                     ↔ ∃ r, r ∈ d ∧ col r = v).
  { intros v. rewrite sort_values_elem_of, elem_of_unique. unfold getitem.
    rewrite list_elem_of_fmap.
    split; [intros (r & -> & Hr)|intros (r & Hr & <-)]; by exists r. }
  split; [done|].
  split; [apply StronglySorted_NoDup_strict; [apply sort_values_strings|done]|].
  split; [done|]. split; [done|].
  rewrite sort_values_length.
  rewrite <- (length_map col d).
  apply submseteq_length, NoDup_submseteq; [apply unique_NoDup|].
  intros v Hv. exact (proj1 (elem_of_unique _ _) Hv).
Qed.

Lemma selectbox_run (opts : list string) picked v (h : heap) :
  opts !! default 0%nat picked = Some v → selectbox opts picked h = Some (v, h).
Proof. intros Hv. unfold selectbox. by apply lift_run. Qed.

Lemma sidebar_run (h : heap) df rows picked_type picked_tier picked_store p t s :
  h !! df = Some rows →
  options Item_Type rows !! default 0%nat picked_type = Some p →
  options Outlet_Location_Type rows !! default 0%nat picked_tier = Some t →
  options Outlet_Type rows !! default 0%nat picked_store = Some s →
  sidebar df picked_type picked_tier picked_store h = Some ((p, t, s), h).
Proof.
  intros Hdf Hp Ht Hs. unfold sidebar.
  rewrite (bind_run _ _ _ _ _ (read_run _ _ _ Hdf)).
  rewrite (bind_run _ _ _ _ _ (selectbox_run _ _ _ _ Hp)).
  rewrite (bind_run _ _ _ _ _ (selectbox_run _ _ _ _ Ht)).
  by rewrite (bind_run _ _ _ _ _ (selectbox_run _ _ _ _ Hs)).
Qed.

(** One run of the script from the filter on: it ends, the store has only
    grown, and the view is a new object holding the selected rows. *)
Lemma run_frame (h : heap) df rows p t s :
  h !! df = Some rows →
  ∃ out h', run df p t s h = Some (out, h') ∧
    h `prefix_of` h' ∧ (length h ≤ view out)%nat ∧
    h' !! view out = Some (filter (in_selection p t s) rows) ∧
    total_observations (metrics out) = length (filter (in_selection p t s) rows).
Proof.
  intros Hdf. unfold run.
  destruct (filtered_df_run h df rows p t s Hdf)
    as (data & h1 & Hrun1 & Hpre1 & Hfresh & Hdata).
  rewrite (bind_run _ _ _ _ _ Hrun1).
  destruct (key_metrics_overview_run h1 data _ Hdata) as (m & Hrun2 & Hcount & _).
  rewrite (bind_run _ _ _ _ _ Hrun2).
  rewrite (bind_run _ _ _ _ _ (missing_data_run _ _ _ Hdata)).
  destruct (visualizations_run h1 data _ Hdata) as (v & h2 & Hrun3 & Hpre2 & Hdata2 & _).
  rewrite (bind_run _ _ _ _ _ Hrun3).
  destruct (advanced_analytics_run h2 data _ Hdata2) as (a & h3 & Hrun4 & Hpre3 & Hdata3).
  rewrite (bind_run _ _ _ _ _ Hrun4).
  eexists _, _. split; [reflexivity|]. cbn [view metrics].
  split; [by repeat (etrans; [eassumption|])|]. by repeat split.
Qed.

Lemma filter_nonempty {X} (P : X → Prop) `{!∀ x, Decision (P x)} (l : list X) x :
  x ∈ l → P x → filter P l ≠ [].
Proof.
  intros Hx HP Hnil. by apply (filter_nil_not_elem_of P l x Hnil HP).
Qed.

Lemma options_lookup (col : Row → string) (d : DataFrame) i v :
  options col d !! i = Some v → v = "All" ∨ ∃ r, r ∈ d ∧ col r = v.
Proof.
  intros Hv. apply list_elem_of_lookup_2 in Hv. unfold options in Hv.
  apply elem_of_cons in Hv as [->|Hv]; [by left|right].
  rewrite sort_values_elem_of, elem_of_unique in Hv. unfold getitem in Hv.
  apply list_elem_of_fmap in Hv as (r & -> & Hr). by exists r.
Qed.

(** X2.  On a table whose category cells are all strings, when each sidebar
    pick is a position of its option list (or nothing was picked), the
    three selections are options of their lists, the view the script goes
    on with is a new object holding the rows of the table that match them,
    the number of observations shown is the number of those rows, and every
    object that existed before the run, the loaded table among them, is as
    it was. *)
Theorem script_runs (h : heap) df rows picked_type picked_tier picked_store :
  h !! df = Some rows →
  (default 0 picked_type < length (options Item_Type rows))%nat →
  (default 0 picked_tier < length (options Outlet_Location_Type rows))%nat →
  (default 0 picked_store < length (options Outlet_Type rows))%nat →
  ∃ p t s out h',
    sidebar df picked_type picked_tier picked_store h = Some ((p, t, s), h) ∧
    p ∈ options Item_Type rows ∧ t ∈ options Outlet_Location_Type rows ∧
    s ∈ options Outlet_Type rows ∧
    script df picked_type picked_tier picked_store h = Some (out, h') ∧
    (∀ l x, h !! l = Some x → h' !! l = Some x) ∧
    view out ≠ df ∧
    h' !! view out = Some (filter (in_selection p t s) rows) ∧
    total_observations (metrics out) = length (filter (in_selection p t s) rows).
Proof.
  intros Hdf Hp Ht Hs.
  apply lookup_lt_is_Some_2 in Hp as [p Hp], Ht as [t Ht], Hs as [s Hs].
  destruct (run_frame h df rows p t s Hdf) as (out & h' & Hrun & Hpre & Hfresh & Hview & Hn).
  exists p, t, s, out, h'.
  pose proof (sidebar_run h df rows _ _ _ p t s Hdf Hp Ht Hs) as Hside.
  split; [done|].
  split; [by eapply list_elem_of_lookup_2|].
  split; [by eapply list_elem_of_lookup_2|].
  split; [by eapply list_elem_of_lookup_2|].
  split; [unfold script; by rewrite (bind_run _ _ _ _ _ Hside)|].
  split; [intros l x Hl; by eapply prefix_lookup_Some|].
  split; [apply lookup_lt_Some in Hdf; lia|]. done.
Qed.

Lemma script_runs_witness :
  [sample] !! 0%nat = Some sample ∧
  (default 0 (Some 1) < length (options Item_Type sample))%nat ∧
  (default 0 None < length (options Outlet_Location_Type sample))%nat ∧
  (default 0 (Some 2) < length (options Outlet_Type sample))%nat ∧
  ∃ p t s out h',
    sidebar 0%nat (Some 1%nat) None (Some 2%nat) [sample] = Some ((p, t, s), [sample]) ∧
    p ∈ options Item_Type sample ∧ t ∈ options Outlet_Location_Type sample ∧
    s ∈ options Outlet_Type sample ∧
    script 0%nat (Some 1%nat) None (Some 2%nat) [sample] = Some (out, h') ∧
    (∀ l x, [sample] !! l = Some x → h' !! l = Some x) ∧
    view out ≠ 0%nat ∧
    h' !! view out = Some (filter (in_selection p t s) sample) ∧
    total_observations (metrics out) = length (filter (in_selection p t s) sample).
Proof.
  assert (H1 : (default 0 (Some 1) < length (options Item_Type sample))%nat)
    by (vm_compute; lia).
  assert (H2 : (default 0 None < length (options Outlet_Location_Type sample))%nat)
    by (vm_compute; lia).
  assert (H3 : (default 0 (Some 2) < length (options Outlet_Type sample))%nat)
    by (vm_compute; lia).
  split; [reflexivity|]. split; [exact H1|]. split; [exact H2|]. split; [exact H3|].
  apply (script_runs [sample] 0%nat sample (Some 1%nat) None (Some 2%nat));
    [reflexivity|exact H1|exact H2|exact H3].
Defined.

(** X3.  With nothing picked in the sidebar the three selections are
    ['All'] and the view holds the whole table: the dashboard opens on all
    the rows. *)
Theorem script_default_view (h : heap) df rows :
  h !! df = Some rows →
  ∃ out h',
    sidebar df None None None h = Some (("All", "All", "All"), h) ∧
    script df None None None h = Some (out, h') ∧
    h' !! view out = Some rows ∧
    total_observations (metrics out) = length rows.
Proof.
  intros Hdf.
  destruct (run_frame h df rows "All" "All" "All" Hdf)
    as (out & h' & Hrun & _ & _ & Hview & Hn).
  assert (Hid : filter (in_selection "All" "All" "All") rows = rows).
  { apply filter_all. intros r _. repeat split; by intros []. }
  rewrite Hid in Hview, Hn.
  assert (Hside : sidebar df None None None h = Some (("All", "All", "All"), h))
    by (by apply (sidebar_run h df rows)).
  exists out, h'. split; [done|].
  split; [unfold script; by rewrite (bind_run _ _ _ _ _ Hside)|]. done.
Qed.

Lemma script_default_view_witness :
  [sample] !! 0%nat = Some sample ∧
  ∃ out h',
    sidebar 0%nat None None None [sample] = Some (("All", "All", "All"), [sample]) ∧
    script 0%nat None None None [sample] = Some (out, h') ∧
    h' !! view out = Some sample ∧
    total_observations (metrics out) = length sample.
Proof.
  split; [reflexivity|].
  apply (script_default_view [sample] 0%nat sample). reflexivity.
Defined.

(** X4.  Picking one option in one filter, the other two left alone, never
    empties the dashboard of a table that has rows: every listed option
    occurs in its column.  (Two picks together can match no row.) *)
Theorem single_pick_nonempty (h : heap) df rows (field : filter_field) picked v :
  h !! df = Some rows →
  rows ≠ [] →
  options (field_column field) rows !! picked = Some v →
  ∃ view_rows,
    result (apply_selection df [(field, v)]) h = Some view_rows ∧
    view_rows ≠ [] ∧
    match field with
    | Product_Type => result (filtered_df df v "All" "All") h
    | City_Tier => result (filtered_df df "All" v "All") h
    | Store_Category => result (filtered_df df "All" "All" v) h
    end = Some view_rows.
Proof.
  intros Hdf Hrows Hv.
  destruct (apply_selection_run [(field, v)] h df rows Hdf)
    as (data & h' & Hrun & _ & _ & Hdata).
  exists (filter (passes_all [(field, v)]) rows).
  split; [unfold result; by rewrite Hrun|].
  split.
  { destruct (options_lookup _ _ _ _ Hv) as [->|(r & Hr & Hcol)].
    - destruct rows as [|r rows]; [done|].
      apply (filter_nonempty _ _ r); [left|].
      constructor; [by intros []|constructor].
    - apply (filter_nonempty _ _ r); [done|].
      constructor; [by intros _|constructor]. }
  assert (Hsel : ∀ p t s,
    (∀ r, in_selection p t s r ↔ passes_all [(field, v)] r) →
    result (filtered_df df p t s) h = Some (filter (passes_all [(field, v)]) rows)).
  { intros p t s Hiff.
    destruct (filtered_df_run h df rows p t s Hdf) as (d1 & h1 & Hrun1 & _ & _ & Hd1).
    unfold result. rewrite Hrun1. cbn. rewrite Hd1. f_equal.
    by apply list_filter_iff. }
  assert (Hall : ∀ col r, passes col "All" r) by (by intros col r ?).
  destruct field; apply Hsel; intros r; unfold in_selection, passes_all;
    rewrite Forall_cons, Forall_nil; cbn [fst snd field_column];
    pose proof (Hall Item_Type r); pose proof (Hall Outlet_Location_Type r);
    pose proof (Hall Outlet_Type r); tauto.
Qed.

Lemma single_pick_nonempty_witness :
  [sample] !! 0%nat = Some sample ∧ sample ≠ [] ∧
  options (field_column City_Tier) sample !! 2%nat = Some "Tier 2" ∧
  ∃ view_rows,
    result (apply_selection 0%nat [(City_Tier, "Tier 2")]) [sample] = Some view_rows ∧
    view_rows ≠ [] ∧
    result (filtered_df 0%nat "All" "Tier 2" "All") [sample] = Some view_rows.
Proof.
  split; [reflexivity|]. split; [discriminate|]. split; [reflexivity|].
  apply (single_pick_nonempty [sample] 0%nat sample City_Tier 2%nat "Tier 2");
    [reflexivity|discriminate|reflexivity].
Defined.

Example two_picks_can_be_empty :
  result (filtered_df 0%nat "Snacks" "Tier 2" "All") [sample] = Some [].
Proof. reflexivity. Qed.

(** ** Renaming the columns *)

Section mapping.
Context (m : list (string * string)).

Lemma replace_value_cases (c : string) :
  (¬ c ∈ m.*1) ∧ replace_value m c = c ∨ (c, replace_value m c) ∈ m.
Proof.
  induction m as [|[k v] m' IH]; cbn.
  - left. split; [apply not_elem_of_nil|done].
  - destruct (decide (c = k)) as [->|Hne]; [right; left|].
    destruct IH as [[Hc Hrv]|Hin].
    + left. split; [|done]. rewrite elem_of_cons. by intros [?|?].
    + right. by right.
Qed.

Lemma replace_value_key (k v : string) :
  NoDup m.*1 → (k, v) ∈ m → replace_value m k = v.
Proof.
  induction m as [|[k' v'] m' IH]; cbn; intros Hnd Hin.
  - by apply elem_of_nil in Hin.
  - apply NoDup_cons in Hnd as [Hk' Hnd].
    apply elem_of_cons in Hin as [[= <- <-]|Hin]; [by rewrite decide_True|].
    rewrite decide_False; [by apply IH|].
    intros ->. apply Hk'. apply list_elem_of_fmap. by exists (k', v).
Qed.

Lemma mapping_target_inj (a b v : string) :
  NoDup m.*2 → (a, v) ∈ m → (b, v) ∈ m → a = b.
Proof.
  induction m as [|[k' v'] m' IH]; cbn; intros Hnd Ha Hb.
  - by apply elem_of_nil in Ha.
  - apply NoDup_cons in Hnd as [Hv' Hnd].
    apply elem_of_cons in Ha as [Ha|Ha];
      apply elem_of_cons in Hb as [Hb|Hb]; simplify_eq; [done|..|by apply IH].
    + exfalso. apply Hv'. apply list_elem_of_fmap. by exists (b, v').
    + exfalso. apply Hv'. apply list_elem_of_fmap. by exists (a, v').
Qed.
End mapping.

Lemma column_mapping_keys : NoDup column_mapping.*1.
Proof. apply (bool_decide_unpack _). by vm_compute. Qed.

Lemma column_mapping_targets : NoDup column_mapping.*2.
Proof. apply (bool_decide_unpack _). by vm_compute. Qed.

Lemma column_mapping_disjoint (v : string) :
  v ∈ column_mapping.*2 → v ∉ (column_mapping.*1).
Proof.
  assert (H : Forall (λ v, v ∉ (column_mapping.*1)) column_mapping.*2).
  { apply (bool_decide_unpack _). by vm_compute. }
  intros Hv. by eapply Forall_forall in H.
Qed.

Lemma load_data_idempotent_cell (c : string) :
  replace_value column_mapping (replace_value column_mapping c)
  = replace_value column_mapping c.
Proof.
  destruct (replace_value_cases column_mapping c) as [[Hc ->]|Hin].
  - by destruct (replace_value_cases column_mapping c) as [[_ ->]|Hin];
      [|exfalso; apply Hc, list_elem_of_fmap; eexists; split; [|exact Hin]].
  - destruct (replace_value_cases column_mapping (replace_value column_mapping c))
      as [[_ Heq]|Hin2]; [done|].
    exfalso. eapply column_mapping_disjoint.
    + apply list_elem_of_fmap. eexists. split; [|exact Hin]. done.
    + apply list_elem_of_fmap. eexists. split; [|exact Hin2]. done.
Qed.

(** X5.  Loading renames the columns of the frame read from the file (their
    names are distinct) in place: as many columns, in the same positions; a
    column under one of the twelve source names gets the canonical name the
    script reads it by, any other column keeps its name; renaming the
    renamed columns changes nothing. *)
Theorem load_data_renames (columns : list string) :
  NoDup columns →
  length (load_data columns) = length columns ∧
  load_data (load_data columns) = load_data columns ∧
  (∀ i k v, (k, v) ∈ column_mapping →
     columns !! i = Some k → load_data columns !! i = Some v) ∧
  (∀ i c, columns !! i = Some c → c ∉ (column_mapping.*1) →
     load_data columns !! i = Some c).
Proof.
  intros _. unfold load_data, rename. split; [apply length_map|].
  split. { rewrite map_map. apply map_ext. intros c. apply load_data_idempotent_cell. }
  split.
  - intros i k v Hkv Hi. change (map ?f ?l) with (f <$> l).
    rewrite list_lookup_fmap, Hi. apply (f_equal Some).
    by apply replace_value_key; [apply column_mapping_keys|].
  - intros i c Hi Hc. change (map ?f ?l) with (f <$> l).
    rewrite list_lookup_fmap, Hi. apply (f_equal Some).
    destruct (replace_value_cases column_mapping c) as [[_ ->]|Hin]; [done|].
    exfalso. apply Hc. apply list_elem_of_fmap. eexists. split; [|exact Hin]. done.
Qed.

Lemma load_data_renames_witness :
  NoDup column_mapping.*1 ∧
  length (load_data column_mapping.*1) = length column_mapping.*1 ∧
  load_data (load_data column_mapping.*1) = load_data column_mapping.*1 ∧
  (∀ i k v, (k, v) ∈ column_mapping →
     column_mapping.*1 !! i = Some k → load_data column_mapping.*1 !! i = Some v) ∧
  (∀ i c, column_mapping.*1 !! i = Some c → c ∉ (column_mapping.*1) →
     load_data column_mapping.*1 !! i = Some c).
Proof.
  assert (H1 : NoDup column_mapping.*1) by exact column_mapping_keys.
  split; [exact H1|].
  apply (load_data_renames column_mapping.*1). exact H1.
Defined.

(** X6.  Loading keeps the column names distinct when the file's header
    has distinct names and none of them is already a canonical name; a
    header that carries both a source name and its canonical name ends up
    with two columns of one name. *)
Theorem load_data_distinct (header : list string) :
  NoDup header →
  (∀ c, c ∈ header → c ∉ (column_mapping.*2)) →
  NoDup (load_data header) ∧
  ¬ NoDup (load_data ["ProductType"; "Item_Type"]).
Proof.
  intros Hnd Hfresh. split.
  - unfold load_data, rename. change (map ?f ?l) with (f <$> l).
    apply NoDup_fmap_2_strong; [|done].
    intros a b Ha Hb Heq.
    destruct (replace_value_cases column_mapping a) as [[_ Hra]|Hina];
      destruct (replace_value_cases column_mapping b) as [[_ Hrb]|Hinb].
    + congruence.
    + exfalso. apply (Hfresh a Ha). rewrite <- Hra, Heq.
      apply list_elem_of_fmap. eexists. split; [|exact Hinb]. done.
    + exfalso. apply (Hfresh b Hb). rewrite <- Hrb, <- Heq.
      apply list_elem_of_fmap. eexists. split; [|exact Hina]. done.
    + rewrite Heq in Hina.
      by eapply mapping_target_inj; [apply column_mapping_targets|..].
  - intros Hdup. apply NoDup_cons in Hdup as [Hdup _]. apply Hdup. left.
Qed.

Lemma load_data_distinct_witness :
  NoDup column_mapping.*1 ∧
  (∀ c, c ∈ column_mapping.*1 → c ∉ (column_mapping.*2)) ∧
  NoDup (load_data column_mapping.*1) ∧
  ¬ NoDup (load_data ["ProductType"; "Item_Type"]).
Proof.
  assert (H1 : NoDup column_mapping.*1) by exact column_mapping_keys.
  assert (H2 : ∀ c, c ∈ column_mapping.*1 → c ∉ (column_mapping.*2)).
  { intros c Hc Hc'. by apply (column_mapping_disjoint c). }
  split; [exact H1|]. split; [exact H2|].
  apply (load_data_distinct column_mapping.*1); [exact H1|exact H2].
Defined.

(** ** The key metrics of a view that has rows *)

Lemma max_from (s : list Q) : ∀ acc,
  let r := fold_left (λ m y, if Qle_bool m y then y else m) s acc in
  (r = acc ∨ r ∈ s) ∧ (acc <= r)%Q ∧ ∀ x, x ∈ s → (x <= r)%Q.
Proof.
  induction s as [|y s IH]; intros acc; cbn [fold_left].
  - split; [by left|]. split; [apply Qle_refl|]. by intros x ?%elem_of_nil.
  - destruct (IH (if Qle_bool acc y then y else acc)) as (Hin & Hacc & Hall).
    destruct (Qle_bool acc y) eqn:Hle.
    + apply Qle_bool_iff in Hle. split; [|split].
      * right. destruct Hin as [->|Hin]; [left|by right].
      * by eapply Qle_trans.
      * intros x [->|Hx]%elem_of_cons; [done|by apply Hall].
    + assert (Hlt : (y <= acc)%Q).
      { apply Qlt_le_weak, Qnot_le_lt. intros H%Qle_bool_iff. congruence. }
      split; [|split; [done|]].
      * destruct Hin as [->|Hin]; [by left|right; by right].
      * intros x [->|Hx]%elem_of_cons; [by eapply Qle_trans|by apply Hall].
Qed.

Lemma max_spec (s : list Q) :
  s ≠ [] → ∃ m, max s = Some m ∧ m ∈ s ∧ ∀ x, x ∈ s → (x <= m)%Q.
Proof.
  destruct s as [|x s]; [done|]. intros _. eexists. split; [reflexivity|].
  destruct (max_from s x) as (Hin & Hacc & Hall). split.
  - destruct Hin as [->|Hin]; [left|by right].
  - intros y [->|Hy]%elem_of_cons; [done|by apply Hall].
Qed.

Lemma max_int_spec (s : list Z) :
  s ≠ [] → ∃ m, max_int s = Some m ∧ m ∈ s ∧ ∀ x, x ∈ s → x ≤ m.
Proof.
  destruct s as [|x s]; [done|]. intros _. eexists. split; [reflexivity|].
  revert x. induction s as [|y s IH]; intros x; cbn [fold_left].
  - split; [left|]. by intros z ->%list_elem_of_singleton.
  - destruct (IH (Z.max x y)) as [Hin Hall]. split.
    + apply elem_of_cons in Hin as [->|Hin]; [|by do 2 right].
      destruct (Z.max_spec x y) as [[_ ->]|[_ ->]]; [right; left|left].
    + intros z [->|[->|Hz]%elem_of_cons]%elem_of_cons.
      * pose proof (Hall (Z.max x y) ltac:(left)). lia.
      * pose proof (Hall (Z.max x y) ltac:(left)). lia.
      * apply Hall. by right.
Qed.

Lemma min_int_spec (s : list Z) :
  s ≠ [] → ∃ m, min_int s = Some m ∧ m ∈ s ∧ ∀ x, x ∈ s → m ≤ x.
Proof.
  destruct s as [|x s]; [done|]. intros _. eexists. split; [reflexivity|].
  revert x. induction s as [|y s IH]; intros x; cbn [fold_left].
  - split; [left|]. by intros z ->%list_elem_of_singleton.
  - destruct (IH (Z.min x y)) as [Hin Hall]. split.
    + apply elem_of_cons in Hin as [->|Hin]; [|by do 2 right].
      destruct (Z.min_spec x y) as [[_ ->]|[_ ->]]; [left|right; left].
    + intros z [->|[->|Hz]%elem_of_cons]%elem_of_cons.
      * pose proof (Hall (Z.min x y) ltac:(left)). lia.
      * pose proof (Hall (Z.min x y) ltac:(left)). lia.
      * apply Hall. by right.
Qed.

Lemma getitem_nonempty {A} (col : Row → A) (d : DataFrame) :
  d ≠ [] → getitem col d ≠ [].
Proof. by destruct d. Qed.

Lemma elem_of_getitem {A} (col : Row → A) (d : DataFrame) x :
  x ∈ getitem col d ↔ ∃ r, r ∈ d ∧ col r = x.
Proof.
  unfold getitem. rewrite list_elem_of_fmap.
  split; [intros (r & -> & Hr)|intros (r & Hr & <-)]; by exists r.
Qed.

Lemma length_positive (d : DataFrame) : d ≠ [] → (0 < length d)%nat.
Proof. destruct d; [done|cbn; lia]. Qed.

(** X7.  On a view that has rows the "Highest MRP" metric shows a price:
    the price of some row of the view, and no row of the view has a higher
    one. *)
Theorem highest_mrp_is_maximum (h : heap) data d :
  h !! data = Some d →
  d ≠ [] →
  ∃ m top,
    key_metrics_overview data h = Some (m, h) ∧
    highest_mrp m = Shown (Some top) ∧
    (∃ r, r ∈ d ∧ Item_MRP r = top) ∧
    (∀ r, r ∈ d → (Item_MRP r <= top)%Q).
Proof.
  intros Hd Hne.
  destruct (key_metrics_overview_run h data d Hd) as (m & Hrun & _ & _ & Hmrp & _).
  destruct (max_spec (getitem Item_MRP d) (getitem_nonempty _ _ Hne))
    as (top & Hmax & Hin & Hall).
  exists m, top. split; [done|].
  rewrite decide_True in Hmrp by (by apply length_positive).
  split; [by rewrite Hmrp, Hmax|].
  split; [by apply elem_of_getitem|].
  intros r Hr. apply Hall. apply elem_of_getitem. by exists r.
Qed.

Lemma highest_mrp_is_maximum_witness :
  [sample] !! 0%nat = Some sample ∧ sample ≠ [] ∧
  ∃ m top,
    key_metrics_overview 0%nat [sample] = Some (m, [sample]) ∧
    highest_mrp m = Shown (Some top) ∧
    (∃ r, r ∈ sample ∧ Item_MRP r = top) ∧
    (∀ r, r ∈ sample → (Item_MRP r <= top)%Q).
Proof.
  split; [reflexivity|]. split; [discriminate|].
  apply (highest_mrp_is_maximum [sample] 0%nat sample); [reflexivity|discriminate].
Defined.

(** X8.  On a view that has rows the "Establishment Years" metric shows a
    range [lo - hi] with [lo] no later than [hi]; both are establishment
    years of rows of the view and the year of every row lies in the
    range. *)
Theorem establishment_years_range (h : heap) data d :
  h !! data = Some d →
  d ≠ [] →
  ∃ m lo hi,
    key_metrics_overview data h = Some (m, h) ∧
    establishment_years m = Shown (Some lo, Some hi) ∧
    lo ≤ hi ∧
    (∃ r, r ∈ d ∧ Outlet_Establishment_Year r = lo) ∧
    (∃ r, r ∈ d ∧ Outlet_Establishment_Year r = hi) ∧
    (∀ r, r ∈ d → lo ≤ Outlet_Establishment_Year r ≤ hi).
Proof.
  intros Hd Hne.
  destruct (key_metrics_overview_run h data d Hd)
    as (m & Hrun & _ & _ & _ & Hyears & _).
  destruct (min_int_spec (getitem Outlet_Establishment_Year d) (getitem_nonempty _ _ Hne))
    as (lo & Hmin & Hlo & Hlo_all).
  destruct (max_int_spec (getitem Outlet_Establishment_Year d) (getitem_nonempty _ _ Hne))
    as (hi & Hmax & Hhi & Hhi_all).
  exists m, lo, hi. split; [done|].
  rewrite decide_True in Hyears by (by apply length_positive).
  split; [by rewrite Hyears, Hmin, Hmax|].
  split; [by apply Hhi_all|].
  split; [by apply elem_of_getitem|]. split; [by apply elem_of_getitem|].
  intros r Hr.
  assert (Outlet_Establishment_Year r ∈ getitem Outlet_Establishment_Year d)
    by (apply elem_of_getitem; by exists r).
  split; [by apply Hlo_all|by apply Hhi_all].
Qed.

Lemma establishment_years_range_witness :
  [sample] !! 0%nat = Some sample ∧ sample ≠ [] ∧
  ∃ m lo hi,
    key_metrics_overview 0%nat [sample] = Some (m, [sample]) ∧
    establishment_years m = Shown (Some lo, Some hi) ∧
    lo ≤ hi ∧
    (∃ r, r ∈ sample ∧ Outlet_Establishment_Year r = lo) ∧
    (∃ r, r ∈ sample ∧ Outlet_Establishment_Year r = hi) ∧
    (∀ r, r ∈ sample → lo ≤ Outlet_Establishment_Year r ≤ hi).
Proof.
  split; [reflexivity|]. split; [discriminate|].
  apply (establishment_years_range [sample] 0%nat sample); [reflexivity|discriminate].
Defined.

(** ** Tables and metrics that must agree *)

Lemma keyed_total {K V} (key : V → K) (l : list V) :
  keyed (λ v, Some (key v)) l = map (λ v, (key v, v)) l.
Proof.
  induction l as [|v l IH]; [done|]. rewrite keyed_cons. cbn [map]. by rewrite IH.
Qed.

Lemma elem_of_groupby_keys {K} `{EqDecision K} (leb : K → K → bool) (key : Row → K)
    (d : DataFrame) k :
  k ∈ (groupby leb (λ r, Some (key r)) d).*1 ↔ ∃ r, r ∈ d ∧ key r = k.
Proof.
  rewrite list_elem_of_fmap. split.
  - intros ([k' g] & -> & [Hg Hne]%elem_of_groupby). cbn.
    destruct g as [|r g]; [done|].
    assert (Hr : r ∈ filter (λ r, Some (key r) = Some k') d) by (rewrite <- Hg; left).
    apply list_elem_of_filter in Hr as [[= Hk] Hr]. by exists r.
  - intros (r & Hr & <-). exists (key r, filter (λ r', Some (key r') = Some (key r)) d).
    split; [done|]. apply elem_of_groupby. split; [done|].
    by apply (filter_nonempty _ _ r).
Qed.

Lemma groupby_length {K} `{EqDecision K} (leb : K → K → bool) (key : Row → K)
    (d : DataFrame) :
  length (groupby leb (λ r, Some (key r)) d) = nunique (getitem key d).
Proof.
  unfold nunique. rewrite <- (length_fmap fst). apply Permutation_length.
  apply NoDup_Permutation; [apply groupby_NoDup|apply NoDup_remove_dups|].
  intros k. by rewrite elem_of_groupby_keys, elem_of_remove_dups, elem_of_getitem.
Qed.

Lemma bubble_data_run (h : heap) data d :
  h !! data = Some d →
  ∃ table, bubble_data data h = Some (table, h) ∧
    table.*1 = (groupby String.leb (λ r, Some (Item_Type r)) d).*1 ∧
    ∀ k b, (k, b) ∈ table ↔
      let g := filter (λ r, Item_Type r = k) d in
      g ≠ [] ∧
      b = {| Avg_MRP := round2 <$> mean (getitem Item_MRP g);
             Avg_Visibility := round2 <$> mean (getitem Item_Visibility g);
             Avg_Sales := round2 <$> mean (getitem Item_Outlet_Sales g);
             Product_Count := length g |}.
Proof.
  intros Hd. eexists. split.
  { unfold bubble_data. by rewrite (bind_run _ _ _ _ _ (read_run _ _ _ Hd)). }
  split; [by rewrite <- list_fmap_compose|].
  intros k b. cbv zeta.
  assert (Hf : filter (λ r, Some (Item_Type r) = Some k) d
               = filter (λ r, Item_Type r = k) d).
  { apply list_filter_iff. intros r. split; [by intros [= ->]|by intros ->]. }
  rewrite list_elem_of_fmap. split.
  - intros ([k' g] & [= -> ->] & [-> Hne]%elem_of_groupby). cbn [fst snd].
    rewrite Hf in *. split; [done|]. f_equal. apply length_map.
  - intros [Hne ->]. exists (k, filter (λ r, Item_Type r = k) d). cbn [fst snd].
    split; [do 2 f_equal; symmetry; apply length_map|].
    apply elem_of_groupby. by rewrite Hf.
Qed.

(** X10.  The "Product Types" metric counts what the charts by product type
    draw: it is the number of rows of the sales-by-product-type table and of
    the product performance matrix, it never exceeds the number of
    observations, and it is 0 exactly on a view without rows. *)
Theorem product_types_count_consistent (h : heap) data d :
  h !! data = Some d →
  ∃ m types bubbles,
    key_metrics_overview data h = Some (m, h) ∧
    type_sales data h = Some (types, h) ∧
    bubble_data data h = Some (bubbles, h) ∧
    product_types_count m = length types ∧
    product_types_count m = length bubbles ∧
    (product_types_count m ≤ total_observations m)%nat ∧
    (product_types_count m = 0%nat ↔ d = []).
Proof.
  intros Hd.
  destruct (key_metrics_overview_run h data d Hd) as (m & Hrun & Hn & Hcount & _).
  destruct (bubble_data_run h data d Hd) as (bubbles & Hbub & Hkeys & _).
  assert (Hlen : length (groupby_sum String.leb (λ r, Some (Item_Type r))
                           Item_Outlet_Sales d) = nunique (getitem Item_Type d)).
  { unfold groupby_sum. by rewrite length_map, groupby_length. }
  exists m, (groupby_sum String.leb (λ r, Some (Item_Type r)) Item_Outlet_Sales d),
    bubbles.
  split; [done|]. split; [by apply type_sales_run|].
  split; [done|]. rewrite Hcount, Hn. split; [done|].
  split.
  { rewrite <- (groupby_length String.leb), <- (length_fmap fst bubbles), Hkeys.
    by rewrite length_fmap. }
  split.
  { unfold nunique. rewrite <- (length_map Item_Type d).
    apply submseteq_length, NoDup_submseteq; [apply NoDup_remove_dups|].
    intros k Hk. exact (proj1 (elem_of_remove_dups _ _) Hk). }
  rewrite <- Hlen. split.
  - intros H0. apply (groupby_sum_nil_iff String.leb Item_Type Item_Outlet_Sales).
    by apply length_zero_iff_nil.
  - by intros ->.
Qed.

Lemma product_types_count_consistent_witness :
  [sample] !! 0%nat = Some sample ∧
  ∃ m types bubbles,
    key_metrics_overview 0%nat [sample] = Some (m, [sample]) ∧
    type_sales 0%nat [sample] = Some (types, [sample]) ∧
    bubble_data 0%nat [sample] = Some (bubbles, [sample]) ∧
    product_types_count m = length types ∧
    product_types_count m = length bubbles ∧
    (product_types_count m ≤ total_observations m)%nat ∧
    (product_types_count m = 0%nat ↔ sample = []).
Proof.
  split; [reflexivity|].
  apply (product_types_count_consistent [sample] 0%nat sample). reflexivity.
Defined.

(** ** The order and the shape of the tables *)

Lemma StronglySorted_map {X Y} (f : X → Y) (R : Y → Y → Prop) (l : list X) :
  StronglySorted (λ a b, R (f a) (f b)) l → StronglySorted R (map f l).
Proof.
  induction 1 as [|x l Hl IH Hx]; cbn [map]; constructor; [done|].
  apply Forall_forall. intros y (z & -> & Hz)%list_elem_of_fmap.
  by eapply Forall_forall in Hx.
Qed.

Lemma groupby_keys_ascending (key : Row → option string) (d : DataFrame) :
  StronglySorted (λ a b, String.leb a b = true ∧ a ≠ b)
    (groupby String.leb key d).*1.
Proof.
  apply StronglySorted_NoDup_strict; [|apply groupby_NoDup].
  apply (StronglySorted_map fst (λ a b, String.leb a b = true)).
  unfold groupby. apply sort_values_sorted.
  - done.
  - intros a b. apply string_leb_false.
  - intros a b c. apply string_leb_trans.
Qed.

(** X12.  The group-by tables the charts are drawn from list their groups
    in strictly ascending order of the group name, each group once: by city
    tier, by product type, by fat content and by store category.  The
    groups by tier, product type and store category are exactly the values
    present in the view; the groups by fat content are exactly the
    normalised forms of the fat contents present. *)
Theorem group_tables_ascending (h : heap) data d :
  h !! data = Some d →
  ∃ tiers types fats h' avgs,
    tier_sales data h = Some (tiers, h) ∧
    type_sales data h = Some (types, h) ∧
    fat_sales data h = Some (fats, h') ∧
    avg_sales_by_type data h = Some (avgs, h) ∧
    StronglySorted (λ a b, String.leb a b = true ∧ a ≠ b) tiers.*1 ∧
    StronglySorted (λ a b, String.leb a b = true ∧ a ≠ b) types.*1 ∧
    StronglySorted (λ a b, String.leb a b = true ∧ a ≠ b) fats.*1 ∧
    StronglySorted (λ a b, String.leb a b = true ∧ a ≠ b) avgs.*1 ∧
    (∀ k, k ∈ tiers.*1 ↔ ∃ r, r ∈ d ∧ Outlet_Location_Type r = k) ∧
    (∀ k, k ∈ types.*1 ↔ ∃ r, r ∈ d ∧ Item_Type r = k) ∧
    (∀ k, k ∈ fats.*1 ↔
       ∃ r, r ∈ d ∧ replace_value fat_content_mapping (Item_Fat_Content r) = k) ∧
    (∀ k, k ∈ avgs.*1 ↔ ∃ r, r ∈ d ∧ Outlet_Type r = k).
Proof.
  intros Hd. eexists _, _, _, _, _.
  split; [by apply tier_sales_run|]. split; [by apply type_sales_run|].
  split; [by apply fat_sales_run|]. split; [by apply avg_sales_by_type_run|].
  rewrite !groupby_sum_keys, groupby_mean_keys.
  split; [apply groupby_keys_ascending|]. split; [apply groupby_keys_ascending|].
  split; [apply groupby_keys_ascending|]. split; [apply groupby_keys_ascending|].
  split; [intros k; apply elem_of_groupby_keys|].
  split; [intros k; apply elem_of_groupby_keys|].
  split; intros k.
  - apply (elem_of_groupby_keys String.leb
      (λ r, replace_value fat_content_mapping (Item_Fat_Content r))).
  - apply elem_of_groupby_keys.
Qed.

Lemma group_tables_ascending_witness :
  [sample] !! 0%nat = Some sample ∧
  ∃ tiers types fats h' avgs,
    tier_sales 0%nat [sample] = Some (tiers, [sample]) ∧
    type_sales 0%nat [sample] = Some (types, [sample]) ∧
    fat_sales 0%nat [sample] = Some (fats, h') ∧
    avg_sales_by_type 0%nat [sample] = Some (avgs, [sample]) ∧
    StronglySorted (λ a b, String.leb a b = true ∧ a ≠ b) tiers.*1 ∧
    StronglySorted (λ a b, String.leb a b = true ∧ a ≠ b) types.*1 ∧
    StronglySorted (λ a b, String.leb a b = true ∧ a ≠ b) fats.*1 ∧
    StronglySorted (λ a b, String.leb a b = true ∧ a ≠ b) avgs.*1 ∧
    (∀ k, k ∈ tiers.*1 ↔ ∃ r, r ∈ sample ∧ Outlet_Location_Type r = k) ∧
    (∀ k, k ∈ types.*1 ↔ ∃ r, r ∈ sample ∧ Item_Type r = k) ∧
    (∀ k, k ∈ fats.*1 ↔
       ∃ r, r ∈ sample ∧ replace_value fat_content_mapping (Item_Fat_Content r) = k) ∧
    (∀ k, k ∈ avgs.*1 ↔ ∃ r, r ∈ sample ∧ Outlet_Type r = k).
Proof.
  split; [reflexivity|].
  apply (group_tables_ascending [sample] 0%nat sample). reflexivity.
Defined.

Lemma sort_values_by_count {X} (l : list (X * nat)) :
  StronglySorted (λ a b, (b.2 ≤ a.2)%nat) (sort_values (λ a b, (b.2 <=? a.2)%nat) l).
Proof.
  apply sort_values_sorted.
  - intros a b. apply Nat.leb_le.
  - intros a b Hab%Nat.leb_gt. lia.
  - intros a b c. lia.
Qed.

(** X13.  The city tier distribution has one entry per tier present in the
    view, with the number of rows of that tier; the entries come most
    frequent first and add up to the number of rows of the view.  The store
    size distribution comes most frequent first as well. *)
Theorem tier_counts_distribution (h : heap) data d :
  h !! data = Some d →
  ∃ counts,
    tier_counts data h = Some (counts, h) ∧
    NoDup counts.*1 ∧
    (∀ t n, (t, n) ∈ counts ↔
       n = length (filter (λ r, Outlet_Location_Type r = t) d) ∧ (0 < n)%nat) ∧
    StronglySorted (λ a b, (b.2 ≤ a.2)%nat) counts ∧
    sum_list counts.*2 = length d ∧
    ∃ sizes h',
      size_counts data h = Some (sizes, h') ∧
      StronglySorted (λ a b, (b.2 ≤ a.2)%nat) sizes.
Proof.
  intros Hd. eexists. split; [by apply tier_counts_run|].
  split; [apply value_counts_NoDup|].
  split.
  { intros t n. rewrite elem_of_value_counts. unfold getitem.
    rewrite (filter_fmap_inv (λ r, Some (Outlet_Location_Type r))), length_fmap.
    assert (Hf : filter (λ r, Some (Outlet_Location_Type r) = Some t) d
                 = filter (λ r, Outlet_Location_Type r = t) d).
    { apply list_filter_iff. intros r. split; [by intros [= ->]|by intros ->]. }
    by rewrite Hf. }
  split; [apply sort_values_by_count|].
  split.
  { unfold getitem. rewrite value_counts_total, keyed_id_length; [apply length_map|].
    intros c (r & -> & _)%list_elem_of_fmap. by eexists. }
  eexists _, _. split; [by apply size_counts_run|]. apply sort_values_by_count.
Qed.

Lemma tier_counts_distribution_witness :
  [sample] !! 0%nat = Some sample ∧
  ∃ counts,
    tier_counts 0%nat [sample] = Some (counts, [sample]) ∧
    NoDup counts.*1 ∧
    (∀ t n, (t, n) ∈ counts ↔
       n = length (filter (λ r, Outlet_Location_Type r = t) sample) ∧ (0 < n)%nat) ∧
    StronglySorted (λ a b, (b.2 ≤ a.2)%nat) counts ∧
    sum_list counts.*2 = length sample ∧
    ∃ sizes h',
      size_counts 0%nat [sample] = Some (sizes, h') ∧
      StronglySorted (λ a b, (b.2 ≤ a.2)%nat) sizes.
Proof.
  split; [reflexivity|].
  apply (tier_counts_distribution [sample] 0%nat sample). reflexivity.
Defined.

Lemma chart_shown {A} (table : list A) : table ≠ [] → chart table = Shown table.
Proof.
  intros Hne. unfold chart. rewrite decide_True; [done|].
  destruct table; [done|cbn; lia].
Qed.

Lemma groupby_nonempty {K} `{EqDecision K} (leb : K → K → bool) (key : Row → K)
    (d : DataFrame) :
  d ≠ [] → groupby leb (λ r, Some (key r)) d ≠ [].
Proof.
  destruct d as [|r d]; [done|]. intros _ Hnil.
  assert (Hin : key r ∈ (groupby leb (λ r, Some (key r)) (r :: d)).*1).
  { apply elem_of_groupby_keys. exists r. split; [left|done]. }
  rewrite Hnil in Hin. by apply elem_of_nil in Hin.
Qed.

Lemma map_nonempty {X Y} (f : X → Y) (l : list X) : l ≠ [] → map f l ≠ [].
Proof. by destruct l. Qed.

Lemma value_counts_nonempty {A} `{EqDecision A} (col : Row → A) (d : DataFrame) :
  d ≠ [] → value_counts (map (λ r, Some (col r)) d) ≠ [].
Proof.
  intros Hne Hnil.
  pose proof (value_counts_total (map (λ r, Some (col r)) d)) as Htotal.
  rewrite Hnil, keyed_id_length, length_map in Htotal.
  - destruct d; [done|]. cbn in Htotal. lia.
  - intros c (r & -> & _)%list_elem_of_fmap. by eexists.
Qed.

(** X14.  When the view has rows every chart of the visualizations block is
    drawn: none of its seven tables is empty, so the "No data available for
    this visualization" notices are never shown there.  The block makes two
    new objects, the copies it assigns columns on, and leaves the view as it
    was. *)
Theorem visualizations_all_drawn (h : heap) data d :
  h !! data = Some d →
  d ≠ [] →
  ∃ c h' t1 t2 t3 t4 t5 t6 t7,
    visualizations data h = Some (Shown c, h') ∧
    chart_size c = Shown t1 ∧ chart_tier c = Shown t2 ∧
    chart_avg_sales c = Shown t3 ∧ chart_fat c = Shown t4 ∧
    chart_tier_sales c = Shown t5 ∧ chart_type_total c = Shown t6 ∧
    chart_type_share c = Shown t7 ∧
    length h' = (length h + 2)%nat ∧
    h' !! data = Some d.
Proof.
  intros Hd Hne. unfold visualizations.
  rewrite (bind_run _ _ _ _ _ (read_run _ _ _ Hd)).
  rewrite decide_False by (by intros ?%length_zero_iff_nil).
  rewrite (bind_run _ _ _ _ _ (size_counts_run _ _ _ Hd)).
  set (h1 := h ++ [_]).
  assert (Hd1 : h1 !! data = Some d) by (by apply lookup_old).
  rewrite (bind_run _ _ _ _ _ (tier_counts_run _ _ _ Hd1)).
  rewrite (bind_run _ _ _ _ _ (avg_sales_by_type_run _ _ _ Hd1)).
  rewrite (bind_run _ _ _ _ _ (fat_sales_run _ _ _ Hd1)).
  set (h2 := h1 ++ [_]).
  assert (Hd2 : h2 !! data = Some d) by (by apply lookup_old).
  rewrite (bind_run _ _ _ _ _ (tier_sales_run _ _ _ Hd2)).
  rewrite (bind_run _ _ _ _ _ (type_sales_total_run _ _ _ Hd2)).
  rewrite (bind_run _ _ _ _ _ (type_sales_run _ _ _ Hd2)).
  eexists _, _, _, _, _, _, _, _, _. split; [reflexivity|]. cbn [chart_size
    chart_tier chart_avg_sales chart_fat chart_tier_sales chart_type_total
    chart_type_share].
  split; [apply chart_shown, (value_counts_nonempty (λ r, default "Unknown" (Outlet_Size r))), Hne|].
  split; [apply chart_shown, (value_counts_nonempty Outlet_Location_Type), Hne|].
  split; [apply chart_shown, map_nonempty, (groupby_nonempty _ Outlet_Type), Hne|].
  split.
  { apply chart_shown, map_nonempty.
    apply (groupby_nonempty _ (λ r, replace_value fat_content_mapping (Item_Fat_Content r))), Hne. }
  split; [apply chart_shown, map_nonempty, (groupby_nonempty _ Outlet_Location_Type), Hne|].
  split; [by destruct d|].
  split; [apply chart_shown, map_nonempty, (groupby_nonempty _ Item_Type), Hne|].
  split; [|exact Hd2].
  subst h2 h1. rewrite !length_app. cbn. lia.
Qed.

Lemma visualizations_all_drawn_witness :
  [sample] !! 0%nat = Some sample ∧ sample ≠ [] ∧
  ∃ c h' t1 t2 t3 t4 t5 t6 t7,
    visualizations 0%nat [sample] = Some (Shown c, h') ∧
    chart_size c = Shown t1 ∧ chart_tier c = Shown t2 ∧
    chart_avg_sales c = Shown t3 ∧ chart_fat c = Shown t4 ∧
    chart_tier_sales c = Shown t5 ∧ chart_type_total c = Shown t6 ∧
    chart_type_share c = Shown t7 ∧
    length h' = (length [sample] + 2)%nat ∧
    h' !! 0%nat = Some sample.
Proof.
  split; [reflexivity|]. split; [discriminate|].
  apply (visualizations_all_drawn [sample] 0%nat sample); [reflexivity|discriminate].
Defined.

Lemma filter_Some_key {K} `{EqDecision K} (key : Row → K) (k : K) (d : DataFrame) :
  filter (λ r, Some (key r) = Some k) d = filter (λ r, key r = k) d.
Proof.
  apply list_filter_iff. intros r. split; [by intros [= ->]|by intros ->].
Qed.

(** X16.  The product performance matrix has one row per product type
    present in the view, in ascending order of the type; the row carries
    the number of rows of that type, which is positive, and the three
    averages are present.  The counts add up to the number of rows of the
    view. *)
Theorem bubble_data_counts (h : heap) data d :
  h !! data = Some d →
  ∃ table,
    bubble_data data h = Some (table, h) ∧
    StronglySorted (λ a b, String.leb a b = true ∧ a ≠ b) table.*1 ∧
    (∀ k, k ∈ table.*1 ↔ ∃ r, r ∈ d ∧ Item_Type r = k) ∧
    (∀ k b, (k, b) ∈ table →
       Product_Count b = length (filter (λ r, Item_Type r = k) d) ∧
       (0 < Product_Count b)%nat ∧
       is_Some (Avg_MRP b) ∧ is_Some (Avg_Visibility b) ∧ is_Some (Avg_Sales b)) ∧
    sum_list (Product_Count <$> table.*2) = length d.
Proof.
  intros Hd. unfold bubble_data.
  rewrite (bind_run _ _ _ _ _ (read_run _ _ _ Hd)), ret_run.
  eexists. split; [reflexivity|].
  set (gs := groupby String.leb (λ r, Some (Item_Type r)) d).
  set (F := λ kg : string * DataFrame, (kg.1, _)).
  assert (Hkeys : (map F gs).*1 = gs.*1) by (by rewrite <- list_fmap_compose).
  rewrite Hkeys.
  split; [apply groupby_keys_ascending|].
  split; [intros k; apply elem_of_groupby_keys|].
  split.
  - intros k b ([k' g] & [= -> ->] & [-> Hne]%elem_of_groupby)%list_elem_of_fmap.
    cbn [fst snd Product_Count Avg_MRP Avg_Visibility Avg_Sales].
    rewrite filter_Some_key in *. unfold getitem. rewrite length_map.
    split; [done|]. split; [by apply length_positive|].
    rewrite !mean_nonempty by (by apply map_nonempty). by repeat split.
  - transitivity (sum_list (length <$> gs.*2)).
    { f_equal. rewrite <- !list_fmap_compose. apply list_fmap_ext.
      intros i [k g] _. cbn. unfold getitem. by rewrite length_map. }
    subst gs. unfold groupby. rewrite sort_values_perm, groups_total.
    rewrite keyed_total. apply length_map.
Qed.

Lemma bubble_data_counts_witness :
  [sample] !! 0%nat = Some sample ∧
  ∃ table,
    bubble_data 0%nat [sample] = Some (table, [sample]) ∧
    StronglySorted (λ a b, String.leb a b = true ∧ a ≠ b) table.*1 ∧
    (∀ k, k ∈ table.*1 ↔ ∃ r, r ∈ sample ∧ Item_Type r = k) ∧
    (∀ k b, (k, b) ∈ table →
       Product_Count b = length (filter (λ r, Item_Type r = k) sample) ∧
       (0 < Product_Count b)%nat ∧
       is_Some (Avg_MRP b) ∧ is_Some (Avg_Visibility b) ∧ is_Some (Avg_Sales b)) ∧
    sum_list (Product_Count <$> table.*2) = length sample.
Proof.
  split; [reflexivity|].
  apply (bubble_data_counts [sample] 0%nat sample). reflexivity.
Defined.

(** ** Store ages and establishment years *)

Lemma age_sales_keys (h : heap) data d :
  h !! data = Some d →
  (∀ r, r ∈ d → 2026 - 2 ^ 63 ≤ Outlet_Establishment_Year r < 2 ^ 63) →
  ∃ table h', age_sales data h = Some (table, h') ∧
    StronglySorted (λ a b, a ≤ b) table.*1 ∧
    ∀ a, a ∈ table.*1 ↔ ∃ r, r ∈ d ∧ current_year - Outlet_Establishment_Year r = a.
Proof.
  intros Hd Hyears. eexists _, _. split; [by apply age_sales_run|]. split.
  - apply (StronglySorted_map fst (λ a b, a ≤ b)), sort_values_ascending.
  - intros a. rewrite sort_values_perm, groupby_mean_keys.
    rewrite (elem_of_groupby_keys Z.leb
      (λ r, int64 (current_year - Outlet_Establishment_Year r))).
    split; intros (r & Hr & <-); exists r; (split; [done|]).
    + symmetry. by apply store_age_no_wrap, Hyears.
    + by apply store_age_no_wrap, Hyears.
Qed.

(** X17.  On a view that has rows, each establishment year a 64-bit integer
    not among the 2025 earliest ones (so that no store age wraps around),
    the ages on the store-age trend span exactly the range the
    "Establishment Years" metric shows: the first age is 2025 minus the
    latest year shown, no age exceeds 2025 minus the earliest year shown,
    and that age is on the trend.  An age below zero appears exactly when a
    store of the view was established after 2025. *)
Theorem store_ages_span_years (h : heap) data d :
  h !! data = Some d →
  d ≠ [] →
  (∀ r, r ∈ d → 2026 - 2 ^ 63 ≤ Outlet_Establishment_Year r < 2 ^ 63) →
  ∃ m lo hi table h',
    key_metrics_overview data h = Some (m, h) ∧
    establishment_years m = Shown (Some lo, Some hi) ∧
    age_sales data h = Some (table, h') ∧
    head table.*1 = Some (2025 - hi) ∧
    (2025 - lo) ∈ table.*1 ∧
    (∀ a, a ∈ table.*1 → 2025 - hi ≤ a ≤ 2025 - lo) ∧
    ((∃ a, a ∈ table.*1 ∧ a < 0) ↔ ∃ r, r ∈ d ∧ 2025 < Outlet_Establishment_Year r).
Proof.
  intros Hd Hne Hrange.
  destruct (key_metrics_overview_run h data d Hd)
    as (m & Hrun & _ & _ & _ & Hyears & _).
  rewrite decide_True in Hyears by (by apply length_positive).
  destruct (min_int_spec (getitem Outlet_Establishment_Year d) (getitem_nonempty _ _ Hne))
    as (lo & Hmin & (rlo & Hrlo & Hlo)%elem_of_getitem & Hlo_all).
  destruct (max_int_spec (getitem Outlet_Establishment_Year d) (getitem_nonempty _ _ Hne))
    as (hi & Hmax & (rhi & Hrhi & Hhi)%elem_of_getitem & Hhi_all).
  destruct (age_sales_keys h data d Hd Hrange)
    as (table & h' & Hage & Hsorted & Hkeys).
  unfold current_year in Hkeys.
  assert (Hbounds : ∀ a, a ∈ table.*1 → 2025 - hi ≤ a ≤ 2025 - lo).
  { intros a (r & Hr & <-)%Hkeys.
    assert (Hy : Outlet_Establishment_Year r ∈ getitem Outlet_Establishment_Year d)
      by (apply elem_of_getitem; by exists r).
    pose proof (Hlo_all _ Hy). pose proof (Hhi_all _ Hy). lia. }
  assert (Hin_hi : (2025 - hi) ∈ table.*1) by (apply Hkeys; exists rhi; by rewrite Hhi).
  assert (Hin_lo : (2025 - lo) ∈ table.*1) by (apply Hkeys; exists rlo; by rewrite Hlo).
  exists m, lo, hi, table, h'. split; [done|].
  split; [by rewrite Hyears, Hmin, Hmax|]. split; [done|].
  split.
  { destruct (table.*1) as [|a ages] eqn:Hages; [by apply elem_of_nil in Hin_hi|].
    cbn. f_equal. apply StronglySorted_inv in Hsorted as [_ Hall].
    pose proof (Hbounds a ltac:(left)).
    apply elem_of_cons in Hin_hi as [->|Hin]; [done|].
    rewrite Forall_forall in Hall. specialize (Hall _ Hin). lia. }
  split; [done|]. split; [done|]. split.
  - intros (a & (r & Hr & <-)%Hkeys & Hneg). exists r. split; [done|lia].
  - intros (r & Hr & Hlate). exists (2025 - Outlet_Establishment_Year r).
    split; [|lia]. apply Hkeys. by exists r.
Qed.

Lemma store_ages_span_years_witness :
  [sample] !! 0%nat = Some sample ∧ sample ≠ [] ∧
  (∀ r, r ∈ sample → 2026 - 2 ^ 63 ≤ Outlet_Establishment_Year r < 2 ^ 63) ∧
  ∃ m lo hi table h',
    key_metrics_overview 0%nat [sample] = Some (m, [sample]) ∧
    establishment_years m = Shown (Some lo, Some hi) ∧
    age_sales 0%nat [sample] = Some (table, h') ∧
    head table.*1 = Some (2025 - hi) ∧
    (2025 - lo) ∈ table.*1 ∧
    (∀ a, a ∈ table.*1 → 2025 - hi ≤ a ≤ 2025 - lo) ∧
    ((∃ a, a ∈ table.*1 ∧ a < 0)
     ↔ ∃ r, r ∈ sample ∧ 2025 < Outlet_Establishment_Year r).
Proof.
  assert (Hrange : ∀ r, r ∈ sample →
    2026 - 2 ^ 63 ≤ Outlet_Establishment_Year r < 2 ^ 63).
  { intros r Hr. unfold sample in Hr.
    repeat (apply elem_of_cons in Hr as [->|Hr]); [cbn; lia..|by apply elem_of_nil in Hr]. }
  split; [reflexivity|]. split; [discriminate|]. split; [exact Hrange|].
  apply (store_ages_span_years [sample] 0%nat sample);
    [reflexivity|discriminate|exact Hrange].
Defined.

(** ** The ["Unknown"] slice and the missing count *)

(** X18.  When no row of the view has the literal size ["Unknown"], the
    ["Unknown"] slice of the store size distribution is the "Missing Values"
    figure of the outlet-size column: the slice is there exactly when the
    figure is positive and then counts the same rows.  Every other slice
    counts the rows of its size. *)
Theorem unknown_slice_is_missing_count (h : heap) data d :
  h !! data = Some d →
  (∀ r, r ∈ d → Outlet_Size r ≠ Some "Unknown") →
  ∃ counts h' weight size,
    size_counts data h = Some (counts, h') ∧
    missing_data data h = Some ([weight; size], h) ∧
    (∀ n, ("Unknown", n) ∈ counts ↔ Z.of_nat n = Missing_Values size ∧ (0 < n)%nat) ∧
    (∀ c n, c ≠ "Unknown" →
       (c, n) ∈ counts ↔
       n = length (filter (λ r, Outlet_Size r = Some c) d) ∧ (0 < n)%nat).
Proof.
  intros Hd Hlit. eexists _, _, _, _.
  split; [by apply size_counts_run|]. split; [by apply missing_data_run|].
  cbn [Missing_Values missing_entry]. rewrite sum_bool_isnull.
  assert (Hmem : ∀ c n,
    (c, n) ∈ value_counts (map (λ r, Some (default "Unknown" (Outlet_Size r))) d) ↔
    n = length (filter (λ r, default "Unknown" (Outlet_Size r) = c) d) ∧ (0 < n)%nat).
  { intros c n. rewrite elem_of_value_counts.
    rewrite (filter_fmap_inv (λ r, Some (default "Unknown" (Outlet_Size r)))).
    by rewrite length_fmap, filter_Some_key. }
  split.
  - intros n. rewrite Hmem.
    assert (Hf : filter (λ r, default "Unknown" (Outlet_Size r) = "Unknown") d
                 = null_rows Outlet_Size d).
    { apply filter_ext_in. intros r Hr. specialize (Hlit r Hr).
      destruct (Outlet_Size r) as [x|]; cbn; [|done].
      split; [intros ->; done|done]. }
    rewrite Hf. split; intros [Hn Hpos]; (split; [lia|done]).
  - intros c n Hc. rewrite Hmem.
    assert (Hf : filter (λ r, default "Unknown" (Outlet_Size r) = c) d
                 = filter (λ r, Outlet_Size r = Some c) d).
    { apply list_filter_iff. intros r. destruct (Outlet_Size r) as [x|]; cbn.
      - split; [by intros ->|by intros [= ->]].
      - split; [by intros <-|done]. }
    by rewrite Hf.
Qed.

Lemma unknown_slice_is_missing_count_witness :
  [sample] !! 0%nat = Some sample ∧
  (∀ r, r ∈ sample → Outlet_Size r ≠ Some "Unknown") ∧
  ∃ counts h' weight size,
    size_counts 0%nat [sample] = Some (counts, h') ∧
    missing_data 0%nat [sample] = Some ([weight; size], [sample]) ∧
    (∀ n, ("Unknown", n) ∈ counts ↔ Z.of_nat n = Missing_Values size ∧ (0 < n)%nat) ∧
    (∀ c n, c ≠ "Unknown" →
       (c, n) ∈ counts ↔
       n = length (filter (λ r, Outlet_Size r = Some c) sample) ∧ (0 < n)%nat).
Proof.
  assert (Hlit : ∀ r, r ∈ sample → Outlet_Size r ≠ Some "Unknown").
  { intros r Hr. unfold sample in Hr.
    repeat (apply elem_of_cons in Hr as [->|Hr]); [done..|by apply elem_of_nil in Hr]. }
  split; [reflexivity|]. split; [exact Hlit|].
  apply (unknown_slice_is_missing_count [sample] 0%nat sample); [reflexivity|exact Hlit].
Defined.

(** ** Rounding *)




(** ** Changing the selection *)

Lemma filtered_df_result (h : heap) df rows p t s :
  h !! df = Some rows →
  result (filtered_df df p t s) h = Some (filter (in_selection p t s) rows).
Proof.
  intros Hdf.
  destruct (filtered_df_run h df rows p t s Hdf) as (data & h' & Hrun & _ & _ & Hdata).
  unfold result. by rewrite Hrun.
Qed.

(** X20.  Setting a filter that was ['All'] to a value can only remove rows
    from the view: the view of a selection is a sub-sequence of the view of
    any selection that agrees with it wherever that one is not ['All'], and
    no view has more rows than the table. *)
Theorem view_narrows (h : heap) df rows p t s p' t' s' :
  h !! df = Some rows →
  p' = "All" ∨ p' = p →
  t' = "All" ∨ t' = t →
  s' = "All" ∨ s' = s →
  ∃ v v',
    result (filtered_df df p t s) h = Some v ∧
    result (filtered_df df p' t' s') h = Some v' ∧
    v `sublist_of` v' ∧ v' `sublist_of` rows ∧
    (length v ≤ length v' ≤ length rows)%nat.
Proof.
  intros Hdf Hp Ht Hs. eexists _, _.
  split; [by apply filtered_df_result|]. split; [by apply filtered_df_result|].
  assert (Himp : ∀ r, in_selection p t s r → in_selection p' t' s' r).
  { intros r (H1 & H2 & H3). unfold in_selection, passes in *.
    destruct Hp as [->| ->], Ht as [->| ->], Hs as [->| ->]; by repeat split. }
  assert (Hsub : filter (in_selection p t s) rows
                 `sublist_of` filter (in_selection p' t' s') rows).
  { rewrite <- (list_filter_filter_l _ (in_selection p' t' s')) by done.
    apply sublist_filter. }
  split; [done|]. split; [apply sublist_filter|].
  split; [by apply sublist_length|apply length_filter].
Qed.

Lemma view_narrows_witness :
  [sample] !! 0%nat = Some sample ∧
  ("Dairy" = "All" ∨ "Dairy" = "Dairy") ∧
  ("All" = "All" ∨ "All" = "Tier 1") ∧
  ("All" = "All" ∨ "All" = "All") ∧
  ∃ v v',
    result (filtered_df 0%nat "Dairy" "Tier 1" "All") [sample] = Some v ∧
    result (filtered_df 0%nat "Dairy" "All" "All") [sample] = Some v' ∧
    v `sublist_of` v' ∧ v' `sublist_of` sample ∧
    (length v ≤ length v' ≤ length sample)%nat.
Proof.
  split; [reflexivity|]. split; [by right|]. split; [by left|]. split; [by left|].
  apply (view_narrows [sample] 0%nat sample "Dairy" "Tier 1" "All" "Dairy" "All" "All");
    [reflexivity|by right|by left|by left].
Defined.

(** X21.  Filtering a view again composes the selections: the rows kept
    are the rows of the table that match both.  In particular filtering a
    view by the selections that made it returns the same rows, in a new
    object, and the first view is left as it was. *)
Theorem filter_composes (h : heap) df rows p t s p2 t2 s2 :
  h !! df = Some rows →
  ∃ data h1 data2 h2,
    filtered_df df p t s h = Some (data, h1) ∧
    filtered_df data p2 t2 s2 h1 = Some (data2, h2) ∧
    h2 !! data2
      = Some (filter (λ r, in_selection p t s r ∧ in_selection p2 t2 s2 r) rows) ∧
    h2 !! data = Some (filter (in_selection p t s) rows) ∧
    data2 ≠ data ∧
    (p2 = p → t2 = t → s2 = s → h2 !! data2 = h2 !! data).
Proof.
  intros Hdf.
  destruct (filtered_df_run h df rows p t s Hdf)
    as (data & h1 & Hrun1 & Hpre1 & Hfresh1 & Hdata).
  destruct (filtered_df_run h1 data _ p2 t2 s2 Hdata)
    as (data2 & h2 & Hrun2 & Hpre2 & Hfresh2 & Hdata2).
  assert (Hdata' : h2 !! data = Some (filter (in_selection p t s) rows))
    by (by eapply prefix_lookup_Some).
  exists data, h1, data2, h2. split; [done|]. split; [done|].
  split.
  { rewrite Hdata2, list_filter_filter. f_equal.
    apply list_filter_iff. intros r. tauto. }
  split; [done|]. split; [apply lookup_lt_Some in Hdata; lia|].
  intros -> -> ->. rewrite Hdata2, Hdata'. f_equal.
  by apply list_filter_filter_l.
Qed.

Lemma filter_composes_witness :
  [sample] !! 0%nat = Some sample ∧
  ∃ data h1 data2 h2,
    filtered_df 0%nat "Dairy" "All" "All" [sample] = Some (data, h1) ∧
    filtered_df data "All" "Tier 1" "All" h1 = Some (data2, h2) ∧
    h2 !! data2
      = Some (filter (λ r, in_selection "Dairy" "All" "All" r ∧
                           in_selection "All" "Tier 1" "All" r) sample) ∧
    h2 !! data = Some (filter (in_selection "Dairy" "All" "All") sample) ∧
    data2 ≠ data ∧
    ("All" = "Dairy" → "Tier 1" = "All" → "All" = "All" → h2 !! data2 = h2 !! data).
Proof.
  split; [reflexivity|].
  apply (filter_composes [sample] 0%nat sample "Dairy" "All" "All" "All" "Tier 1" "All").
  reflexivity.
Defined.

(** ** A category named like the sentinel *)

(** X22.  The filters tell "no filter" from a value by the string ['All']
    alone.  When a row of the table has the product type ["All"], that type
    is listed a second time among the options, and picking it shows the
    whole table, not the rows of that type. *)
Theorem category_named_all (h : heap) df rows r :
  h !! df = Some rows →
  r ∈ rows →
  Item_Type r = "All" →
  ∃ i out h',
    (0 < i)%nat ∧
    options Item_Type rows !! i = Some "All" ∧
    script df (Some i) None None h = Some (out, h') ∧
    h' !! view out = Some rows ∧
    total_observations (metrics out) = length rows.
Proof.
  intros Hdf Hr Htype.
  assert (Hin : "All" ∈ sort_values String.leb (unique (getitem Item_Type rows))).
  { rewrite sort_values_elem_of, elem_of_unique, elem_of_getitem. by exists r. }
  apply list_elem_of_lookup_1 in Hin as [j Hj].
  destruct (run_frame h df rows "All" "All" "All" Hdf)
    as (out & h' & Hrun & _ & _ & Hview & Hn).
  assert (Hid : filter (in_selection "All" "All" "All") rows = rows).
  { apply filter_all. intros r' _. repeat split; by intros []. }
  rewrite Hid in Hview, Hn.
  assert (Hside : sidebar df (Some (S j)) None None h = Some (("All", "All", "All"), h))
    by (by apply (sidebar_run h df rows)).
  exists (S j), out, h'. split; [lia|]. split; [done|].
  split; [unfold script; by rewrite (bind_run _ _ _ _ _ Hside)|]. done.
Qed.

Lemma category_named_all_witness :
  [sample_named_all] !! 0%nat = Some sample_named_all ∧
  row_named_all ∈ sample_named_all ∧
  Item_Type row_named_all = "All" ∧
  ∃ i out h',
    (0 < i)%nat ∧
    options Item_Type sample_named_all !! i = Some "All" ∧
    script 0%nat (Some i) None None [sample_named_all] = Some (out, h') ∧
    h' !! view out = Some sample_named_all ∧
    total_observations (metrics out) = length sample_named_all.
Proof.
  assert (Hin : row_named_all ∈ sample_named_all)
    by (apply elem_of_app; right; left).
  split; [reflexivity|]. split; [exact Hin|]. split; [reflexivity|].
  apply (category_named_all [sample_named_all] 0%nat sample_named_all row_named_all);
    [reflexivity|exact Hin|reflexivity].
Defined.
